(** * Traffic manager: collision avoidance and motion planning

    A shallow embedding of the collision stage (CollisionAvoidance,
    NegotiateCollision, GetGeometryBetweenActors, GetGeodesicBoundary,
    GetBoundary, GetBoundingBoxExtention, GetPolygon) and of
    MotionPlan.h (MotionPlan), with the properties of the specification
    stated and settled on the embedding.

    Numbers.  The C++ code computes in [float] and [double].  Here both
    are exact rationals ([Q]): rounding and overflow are not modelled.  The
    one place where the code uses the IEEE value +infinity (the initial
    distance margin) is modelled by the type [efloat], a rational or
    [Inf].

    Failure.  [std::vector::at], [std::unordered_map::at] and
    [std::deque::at] throw [std::out_of_range]; the embedding returns
    [Raise out_of_range] there.  [front()] of an empty container is
    undefined behaviour in C++; the embedding returns [Raise empty_front].

    State.  The maps and caches that the C++ functions receive by
    non-const reference are passed in and returned. *)

From Stdlib Require Import QArith Qabs Qminmax.
From stdpp Require Import gmap strings list fin_maps pretty.
From Stdlib Require Import Lqa.

Local Open Scope Q_scope.

(** ** Numbers *)

Definition Qltb (a b : Q) : bool := negb (Qle_bool b a).
Definition Qgtb (a b : Q) : bool := Qltb b a.

(** Modelled from the spec: the macros MAX and SQUARE of Constants.h,
    which is not under src/ ([max] and the square of the spec). *)
Definition MAX (a b : Q) : Q := if Qgtb a b then a else b.
Definition MIN (a b : Q) : Q := if Qltb a b then a else b.
Definition SQUARE (a : Q) : Q := a * a.

(** A [float] that may hold [std::numeric_limits<float>::infinity()]. *)
Inductive efloat : Type :=
  | Fin (q : Q)
  | Inf.

Definition efloat_ltb (a : efloat) (b : Q) : bool :=
  match a with Fin q => Qltb q b | Inf => false end.
Definition efloat_gtb (a : efloat) (b : Q) : bool :=
  match a with Fin q => Qgtb q b | Inf => true end.

Definition is_finite (a : efloat) : Prop :=
  match a with Fin _ => True | Inf => False end.

(** [std::numeric_limits<float>::epsilon()], 2^-23. *)
Definition FLT_EPSILON : Q := 1 # 8388608.

(** ** Failure *)

Inductive exn : Type :=
  | out_of_range
  | empty_front.

Inductive result (A : Type) : Type :=
  | Ok (a : A)
  | Raise (e : exn).
Arguments Ok {A} a.
Arguments Raise {A} e.

Global Instance result_ret : MRet result := λ A a, Ok a.
Global Instance result_bind : MBind result := λ A B f r,
  match r with
  | Ok a => f a
  | Raise e => Raise e
  end.

(** [m.at(k)] of a map and [v.at(i)] of a vector or deque. *)
Definition map_at {V} (m : gmap N V) (k : N) : result V :=
  match m !! k with Some v => Ok v | None => Raise out_of_range end.
Definition list_at {A} (l : list A) (i : nat) : result A :=
  match l !! i with Some v => Ok v | None => Raise out_of_range end.
Definition list_front {A} (l : list A) : result A :=
  match l with x :: _ => Ok x | [] => Raise empty_front end.

(** [m.insert({k, v})]: nothing happens when the key is present. *)
Definition map_insert `{Countable K} {V} (k : K) (v : V) (m : gmap K V) : gmap K V :=
  match m !! k with Some _ => m | None => <[k:=v]> m end.

(** ** Vectors of carla/geom *)

Record Vector3D : Type := mkVector3D { vx : Q; vy : Q; vz : Q }.
Abbreviation Location := Vector3D.

Definition vadd (a b : Vector3D) : Vector3D :=
  mkVector3D (vx a + vx b) (vy a + vy b) (vz a + vz b).
Definition vsub (a b : Vector3D) : Vector3D :=
  mkVector3D (vx a - vx b) (vy a - vy b) (vz a - vz b).
Definition vscale (a : Vector3D) (k : Q) : Vector3D :=
  mkVector3D (vx a * k) (vy a * k) (vz a * k).
Definition vdiv (a : Vector3D) (k : Q) : Vector3D :=
  mkVector3D (vx a / k) (vy a / k) (vz a / k).
Definition Dot (a b : Vector3D) : Q := vx a * vx b + vy a * vy b + vz a * vz b.
Definition SquaredLength (a : Vector3D) : Q := Dot a a.
Definition DistanceSquared (a b : Vector3D) : Q := SquaredLength (vsub b a).

Record Point2D : Type := mkPoint2D { px : Q; py : Q }.
(** The outer ring of a boost polygon. *)
Definition Polygon : Type := list Point2D.

(** ** Data structures of DataStructures.h *)

Definition ActorId : Type := N.

Inductive ActorType : Type := Vehicle | Pedestrian | Any.

Global Instance ActorType_eq_dec : EqDecision ActorType.
Proof. solve_decision. Defined.

Inductive TLS : Type := Red | Yellow | Green | Off | Unknown.

Global Instance TLS_eq_dec : EqDecision TLS.
Proof. solve_decision. Defined.

Record Rotation : Type := mkRotation { pitch : Q; yaw : Q; roll : Q }.

Record Transform : Type := mkTransform {
  tr_location : Location;
  tr_rotation : Rotation
}.

Record KinematicState : Type := mkKinematicState {
  location : Location;
  rotation : Rotation;
  velocity : Vector3D;
  physics_enabled : bool
}.

Record StaticAttributes : Type := mkStaticAttributes {
  actor_type : ActorType;
  half_length : Q;
  half_width : Q;
  speed_limit : Q
}.

Record TrafficLightState : Type := mkTrafficLightState {
  tl_state : TLS;
  at_traffic_light : bool
}.

Record CollisionLock : Type := mkCollisionLock {
  lead_vehicle_id : ActorId;
  initial_lock_distance : Q;
  distance_to_lead_vehicle : Q
}.

Record CollisionHazardData : Type := mkCollisionHazardData {
  hazard_actor_id : ActorId;
  available_distance_margin : efloat;
  hazard : bool
}.

Record GeometryComparison : Type := mkGeometryComparison {
  reference_vehicle_to_other_geodesic : Q;
  other_vehicle_to_reference_geodesic : Q;
  inter_geodesic_distance : Q;
  inter_bbox_distance : Q
}.

(** Modelled from the spec: SimpleWaypoint of SimpleWaypoint.h, which is
    not under src/: a point of the road graph that exposes its
    location, forward vector, transform and junction flag. *)
Record SimpleWaypoint : Type := mkSimpleWaypoint {
  wp_transform : Transform;
  wp_forward : Vector3D;
  wp_junction : bool
}.

Definition wp_location (w : SimpleWaypoint) : Location := tr_location (wp_transform w).
Definition CheckJunction (w : SimpleWaypoint) : bool := wp_junction w.
Definition wp_DistanceSquared (a b : SimpleWaypoint) : Q :=
  DistanceSquared (wp_location a) (wp_location b).

Definition LocationList : Type := list Location.
Definition Buffer : Type := list SimpleWaypoint.
Definition TargetWPInfo : Type := (SimpleWaypoint * nat)%type.

Abbreviation BufferMap := (gmap ActorId Buffer).
Abbreviation KinematicStateMap := (gmap ActorId KinematicState).
Abbreviation StaticAttributeMap := (gmap ActorId StaticAttributes).
Abbreviation TrafficLightStateMap := (gmap ActorId TrafficLightState).
Abbreviation CollisionLockMap := (gmap ActorId CollisionLock).
Abbreviation GeodesicBoundaryMap := (gmap ActorId LocationList).
Abbreviation GeometryComparisonMap := (gmap string GeometryComparison).

(** ** What the two files take from the rest of the code base

    The constants of Constants.h, the square root of the float library,
    [cg::Rotation::GetForwardVector], [boost::geometry::distance],
    [GetTargetWaypoint] and the deviation products of
    LocalizationUtils.h and the PID controller of PIDController.h are not
    under src/; the embedding is parametric in them. *)

Record StateEntry : Type := mkStateEntry {
  deviation : Q;
  deviation_integral : Q;
  timestamp : Q;
  st_velocity : Q;
  velocity_integral : Q
}.

Record ActuationSignal : Type := mkActuationSignal {
  throttle : Q;
  brake : Q;
  steer : Q
}.

Class Externals : Type := {
  (* float library and carla/geom *)
  sqrtf : Q → Q;
  GetForwardVector : Rotation → Vector3D;
  (* boost::geometry *)
  bg_distance : Polygon → Polygon → Q;
  (* constants::Collision *)
  BOUNDARY_EXTENSION_RATE : Q;
  BOUNDARY_EXTENSION_MINIMUM : Q;
  LOCKING_DISTANCE_PADDING : Q;
  MAX_LOCKING_EXTENSION : Q;
  WALKER_TIME_EXTENSION : Q;
  COS_10_DEGREES : Q;
  SQUARE_ROOT_OF_TWO : Q;
  MAX_COLLISION_RADIUS : Q;
  VERTICAL_OVERLAP_THRESHOLD : Q;
  (* constants::WaypointSelection *)
  JUNCTION_LOOK_AHEAD : Q;
  TARGET_WAYPOINT_TIME_HORIZON : Q;
  TARGET_WAYPOINT_HORIZON_LENGTH : Q;
  (* constants::MotionPlan, SpeedThreshold, HybridMode *)
  RELATIVE_APPROACH_SPEED : Q;
  MIN_FOLLOW_LEAD_DISTANCE : Q;
  FOLLOW_DISTANCE_RATE : Q;
  CRITICAL_BRAKING_MARGIN : Q;
  EPSILON_RELATIVE_SPEED : Q;
  HIGHWAY_SPEED : Q;
  HYBRID_MODE_DT : Q;
  (* LocalizationUtils.h *)
  GetTargetWaypoint : Buffer → Q → result TargetWPInfo;
  DeviationDotProduct : Location → Vector3D → Location → Q;
  DeviationCrossProduct : Location → Vector3D → Location → Q;
  (* PIDController.h *)
  PID_StateUpdate : StateEntry → Q → Q → Q → Q → StateEntry;
  PID_RunStep : StateEntry → StateEntry → list Q → list Q → ActuationSignal
}.

(** The [Parameters] object, read through its getters. *)
Record Parameters : Type := mkParameters {
  GetDistanceToLeadingVehicle : ActorId → Q;
  GetCollisionDetection : ActorId → ActorId → bool;
  GetPercentageIgnoreVehicles : ActorId → Q;
  GetPercentageIgnoreWalkers : ActorId → Q;
  GetVehicleTargetVelocity : ActorId → Q → Q;
  GetSynchronousMode : bool
}.

(** [TrackTraffic], read through [GetOverlappingVehicles]; the list is the
    iteration order of the returned set. *)
Record TrackTraffic : Type := mkTrackTraffic {
  GetOverlappingVehicles : ActorId → list ActorId
}.

Section CollisionStage.

Context `{Externals}.

Definition Length (a : Vector3D) : Q := sqrtf (SquaredLength a).
Definition MakeUnitVector (a : Vector3D) : Vector3D := vscale a (1 / Length a).

(** ** GetBoundingBoxExtention *)

Definition GetBoundingBoxExtention (actor_id : ActorId)
    (kinematic_state : KinematicState)
    (collision_lock_map : CollisionLockMap) : Q :=
  let velocity := Dot (velocity kinematic_state)
                      (GetForwardVector (rotation kinematic_state)) in
  let bbox_extension := BOUNDARY_EXTENSION_RATE * velocity + BOUNDARY_EXTENSION_MINIMUM in
  match collision_lock_map !! actor_id with
  | Some lock =>
      let lock_boundary_length := distance_to_lead_vehicle lock + LOCKING_DISTANCE_PADDING in
      if Qltb (lock_boundary_length - initial_lock_distance lock) MAX_LOCKING_EXTENSION
      then lock_boundary_length
      else bbox_extension
  | None => bbox_extension
  end.

(** ** GetBoundary *)

Definition GetBoundary (kinematic_state : KinematicState)
    (attributes : StaticAttributes) : LocationList :=
  let heading_vector := GetForwardVector (rotation kinematic_state) in
  let forward_extension :=
    if decide (actor_type attributes = Pedestrian)
    then Length (velocity kinematic_state) * WALKER_TIME_EXTENSION
    else 0 in
  let bbox_x := half_length attributes in
  let bbox_y := half_width attributes in
  let x_boundary_vector := vscale heading_vector (bbox_x + forward_extension) in
  let perpendicular_vector :=
    MakeUnitVector (mkVector3D (- vy heading_vector) (vx heading_vector) 0) in
  let y_boundary_vector := vscale perpendicular_vector (bbox_y + forward_extension) in
  let location := location kinematic_state in
  [ vadd location (vsub x_boundary_vector y_boundary_vector);
    vadd location (vsub (vscale x_boundary_vector (-1)) y_boundary_vector);
    vadd location (vadd (vscale x_boundary_vector (-1)) y_boundary_vector);
    vadd location (vadd x_boundary_vector y_boundary_vector) ].

(** ** GetGeodesicBoundary *)

(** The two points of a rib at waypoint [current_point] (left, right). *)
Definition rib (current_point : SimpleWaypoint) (width : Q) : Location * Location :=
  let heading_vector := wp_forward current_point in
  let location := wp_location current_point in
  let perpendicular_vector :=
    MakeUnitVector (mkVector3D (- vy heading_vector) (vx heading_vector) 0) in
  let scaled_perpendicular := vscale perpendicular_vector width in
  (vadd location scaled_perpendicular,
   vadd location (vscale scaled_perpendicular (-1))).

(** The [for] loop of the boundary walk.  [n] is
    [waypoint_buffer.size() - j], so the loop leaves at [n = 0] exactly when
    [j < waypoint_buffer.size()] fails. *)
Fixpoint boundary_walk (n : nat) (j : nat) (waypoint_buffer : Buffer)
    (boundary_start : SimpleWaypoint) (bbox_extension_square width : Q)
    (boundary_end : option SimpleWaypoint) (current_point : SimpleWaypoint)
    (left_boundary right_boundary : LocationList)
    : result (LocationList * LocationList) :=
  match n with
  | O => Ok (left_boundary, right_boundary)
  | S n' =>
      let reached_distance :=
        Qgtb (wp_DistanceSquared boundary_start current_point) bbox_extension_square
        || Nat.eqb j (length waypoint_buffer - 1) in
      let emit :=
        match boundary_end with
        | None => true
        | Some e => Qltb (Dot (wp_forward e) (wp_forward current_point)) COS_10_DEGREES
        end || reached_distance in
      let '(left_boundary', right_boundary', boundary_end') :=
        if emit
        then (left_boundary ++ [fst (rib current_point width)],
              right_boundary ++ [snd (rib current_point width)],
              Some current_point)
        else (left_boundary, right_boundary, boundary_end) in
      current_point' ← list_at waypoint_buffer j;
      if reached_distance
      then Ok (left_boundary', right_boundary')
      else boundary_walk n' (S j) waypoint_buffer boundary_start
             bbox_extension_square width boundary_end' current_point'
             left_boundary' right_boundary'
  end.

(** The ribs of a vehicle: the part of [GetGeodesicBoundary] between the
    call of [GetTargetWaypoint] and the end of the loop. *)
Definition geodesic_ribs (actor_id : ActorId) (kinematic_state : KinematicState)
    (attributes : StaticAttributes) (waypoint_buffer : Buffer)
    (specific_lead_distance : Q) (collision_lock_map : CollisionLockMap)
    : result (LocationList * LocationList) :=
  let bbox_extension :=
    MAX specific_lead_distance
        (GetBoundingBoxExtention actor_id kinematic_state collision_lock_map) in
  let bbox_extension_square := SQUARE bbox_extension in
  let width := half_width attributes in
  let length_ := half_length attributes in
  target_wp_info ← GetTargetWaypoint waypoint_buffer length_;
  let boundary_start := fst target_wp_info in
  let boundary_start_index := snd target_wp_info in
  current_point ← list_at waypoint_buffer boundary_start_index;
  boundary_walk (length waypoint_buffer - boundary_start_index) boundary_start_index
    waypoint_buffer boundary_start bbox_extension_square width None current_point [] [].

Definition GetGeodesicBoundary (actor_id : ActorId)
    (geodesic_boundary_map : GeodesicBoundaryMap)
    (kinematic_state : KinematicState) (attributes : StaticAttributes)
    (waypoint_buffer : Buffer) (specific_lead_distance : Q)
    (collision_lock_map : CollisionLockMap)
    : result (LocationList * GeodesicBoundaryMap) :=
  match geodesic_boundary_map !! actor_id with
  | Some geodesic_boundary => Ok (geodesic_boundary, geodesic_boundary_map)
  | None =>
      let bbox := GetBoundary kinematic_state attributes in
      geodesic_boundary ←
        (if decide (actor_type attributes = Vehicle)
         then
           ribs ← geodesic_ribs actor_id kinematic_state attributes waypoint_buffer
                    specific_lead_distance collision_lock_map;
           let left_boundary := fst ribs in
           let right_boundary := snd ribs in
           Ok (rev right_boundary ++ bbox ++ left_boundary)
         else Ok bbox);
      Ok (geodesic_boundary, map_insert actor_id geodesic_boundary geodesic_boundary_map)
  end.

(** ** GetPolygon *)

Definition to_point (l : Location) : Point2D := mkPoint2D (vx l) (vy l).

Definition GetPolygon (boundary : LocationList) : result Polygon :=
  first ← list_front boundary;
  Ok (map to_point boundary ++ [to_point first]).

(** ** GetGeometryBetweenActors *)

Definition actor_id_key (reference_vehicle_id other_actor_id : ActorId) : string :=
  if (reference_vehicle_id <? other_actor_id)%N
  then pretty reference_vehicle_id +:+ "|" +:+ pretty other_actor_id
  else pretty other_actor_id +:+ "|" +:+ pretty other_actor_id.

Definition swap_geodesic (m : GeometryComparison) : GeometryComparison :=
  mkGeometryComparison
    (other_vehicle_to_reference_geodesic m)
    (reference_vehicle_to_other_geodesic m)
    (inter_geodesic_distance m)
    (inter_bbox_distance m).

Definition GetGeometryBetweenActors
    (geometry_cache : GeometryComparisonMap)
    (geodesic_boundary_map : GeodesicBoundaryMap)
    (reference_vehicle_id other_actor_id : ActorId)
    (reference_vehicle_state other_vehicle_state : KinematicState)
    (reference_vehicle_attributes other_vehicle_attributes : StaticAttributes)
    (reference_vehicle_buffer other_vehicle_buffer : Buffer)
    (collision_lock_map : CollisionLockMap)
    (reference_lead_distance other_lead_distance : Q)
    : result (GeometryComparison * GeometryComparisonMap * GeodesicBoundaryMap) :=
  let key := actor_id_key reference_vehicle_id other_actor_id in
  match geometry_cache !! key with
  | Some mCache => Ok (swap_geodesic mCache, geometry_cache, geodesic_boundary_map)
  | None =>
      reference_polygon ←
        GetPolygon (GetBoundary reference_vehicle_state reference_vehicle_attributes);
      other_polygon ←
        GetPolygon (GetBoundary other_vehicle_state other_vehicle_attributes);
      '(reference_geodesic, gbm1) ←
        GetGeodesicBoundary reference_vehicle_id geodesic_boundary_map
          reference_vehicle_state reference_vehicle_attributes
          reference_vehicle_buffer reference_lead_distance collision_lock_map;
      reference_geodesic_polygon ← GetPolygon reference_geodesic;
      '(other_geodesic, gbm2) ←
        GetGeodesicBoundary other_actor_id gbm1
          other_vehicle_state other_vehicle_attributes
          other_vehicle_buffer other_lead_distance collision_lock_map;
      other_geodesic_polygon ← GetPolygon other_geodesic;
      let mCache :=
        mkGeometryComparison
          (bg_distance reference_polygon other_geodesic_polygon)
          (bg_distance other_polygon reference_geodesic_polygon)
          (bg_distance reference_geodesic_polygon other_geodesic_polygon)
          (bg_distance reference_polygon other_polygon) in
      Ok (mCache, map_insert key mCache geometry_cache, gbm2)
  end.

(** ** NegotiateCollision *)

(** A vector divided by its length when the length is above [2 * epsilon]. *)
Definition normalize_guarded (v : Vector3D) : Vector3D :=
  let magnitude := Length v in
  if Qgtb magnitude (2 * FLT_EPSILON) then vdiv v magnitude else v.

(** The value of the local [ego_angular_priority]: both headings are read
    from [reference_vehicle_state], as the source has it. *)
Definition ego_angular_priority
    (reference_vehicle_state other_vehicle_state : KinematicState) : bool :=
  let reference_location := location reference_vehicle_state in
  let other_location := location other_vehicle_state in
  let reference_heading := GetForwardVector (rotation reference_vehicle_state) in
  let reference_to_other := normalize_guarded (vsub other_location reference_location) in
  let other_heading := GetForwardVector (rotation reference_vehicle_state) in
  let other_to_reference := normalize_guarded (vsub reference_location other_location) in
  Qltb (Dot reference_heading reference_to_other) (Dot other_heading other_to_reference).

(** The condition of the outer [if]: whether the pair is negotiated at all. *)
Definition negotiation_gate
    (reference_vehicle_id other_actor_id : ActorId)
    (collision_locks : CollisionLockMap)
    (reference_vehicle_state other_vehicle_state : KinematicState)
    (reference_vehicle_attributes other_vehicle_attributes : StaticAttributes)
    (reference_tl_state : TrafficLightState)
    (closest_point look_ahead_point : SimpleWaypoint) : bool :=
  let reference_location := location reference_vehicle_state in
  let other_location := location other_vehicle_state in
  let reference_heading := GetForwardVector (rotation reference_vehicle_state) in
  let reference_to_other := normalize_guarded (vsub other_location reference_location) in
  let reference_vehicle_length :=
    half_length reference_vehicle_attributes * SQUARE_ROOT_OF_TWO in
  let other_vehicle_length :=
    half_length other_vehicle_attributes * SQUARE_ROOT_OF_TWO in
  let inter_vehicle_distance := DistanceSquared reference_location other_location in
  let ego_bounding_box_extension :=
    GetBoundingBoxExtention reference_vehicle_id reference_vehicle_state collision_locks in
  let other_bounding_box_extension :=
    GetBoundingBoxExtention other_actor_id other_vehicle_state collision_locks in
  let inter_vehicle_length := reference_vehicle_length + other_vehicle_length in
  let ego_detection_range := SQUARE (ego_bounding_box_extension + inter_vehicle_length) in
  let cross_detection_range :=
    SQUARE (ego_bounding_box_extension + inter_vehicle_length
            + other_bounding_box_extension) in
  let other_vehicle_in_ego_range := Qltb inter_vehicle_distance ego_detection_range in
  let other_vehicles_in_cross_detection_range :=
    Qltb inter_vehicle_distance cross_detection_range in
  let other_vehicle_in_front := Qgtb (Dot reference_heading reference_to_other) 0 in
  let ego_inside_junction := CheckJunction closest_point in
  let ego_at_traffic_light := at_traffic_light reference_tl_state in
  let ego_stopped_by_light := negb (bool_decide (tl_state reference_tl_state = Green)) in
  let ego_at_junction_entrance :=
    negb (CheckJunction closest_point) && CheckJunction look_ahead_point in
  negb (ego_at_junction_entrance && ego_at_traffic_light && ego_stopped_by_light)
  && ((ego_inside_junction && other_vehicles_in_cross_detection_range)
      || (negb ego_inside_junction && other_vehicle_in_front && other_vehicle_in_ego_range)).

(** The condition of the inner [if]: whether the negotiated pair is a hazard. *)
Definition negotiation_hazard (geometry_comparison : GeometryComparison)
    (ego_angular_priority : bool) : bool :=
  let geodesic_path_bbox_touching :=
    Qltb (inter_geodesic_distance geometry_comparison) (1 # 10) in
  let vehicle_bbox_touching :=
    Qltb (inter_bbox_distance geometry_comparison) (1 # 10) in
  let ego_path_clear :=
    Qgtb (other_vehicle_to_reference_geodesic geometry_comparison) (1 # 10) in
  let other_path_clear :=
    Qgtb (reference_vehicle_to_other_geodesic geometry_comparison) (1 # 10) in
  let ego_path_priority :=
    Qltb (reference_vehicle_to_other_geodesic geometry_comparison)
         (other_vehicle_to_reference_geodesic geometry_comparison) in
  geodesic_path_bbox_touching
  && ((negb vehicle_bbox_touching
       && (negb ego_path_clear
           || (ego_path_clear && other_path_clear
               && negb ego_angular_priority && negb ego_path_priority)))
      || (vehicle_bbox_touching && negb ego_angular_priority && negb ego_path_priority)).

(** The collision locking mechanism of the hazard path. *)
Definition update_collision_lock (reference_vehicle_id other_actor_id : ActorId)
    (geometry_comparison : GeometryComparison)
    (collision_locks : CollisionLockMap) : CollisionLockMap :=
  match collision_locks !! reference_vehicle_id with
  | Some lock =>
      if decide (other_actor_id = lead_vehicle_id lock)
      then
        if Qltb (other_vehicle_to_reference_geodesic geometry_comparison) (1 # 10)
        then <[reference_vehicle_id :=
                 mkCollisionLock (lead_vehicle_id lock) (initial_lock_distance lock)
                   (inter_bbox_distance geometry_comparison)]> collision_locks
        else <[reference_vehicle_id :=
                 mkCollisionLock (lead_vehicle_id lock) (initial_lock_distance lock)
                   (reference_vehicle_to_other_geodesic geometry_comparison)]> collision_locks
      else <[reference_vehicle_id :=
               mkCollisionLock other_actor_id
                 (inter_bbox_distance geometry_comparison)
                 (inter_bbox_distance geometry_comparison)]> collision_locks
  | None =>
      map_insert reference_vehicle_id
        (mkCollisionLock other_actor_id
           (inter_bbox_distance geometry_comparison)
           (inter_bbox_distance geometry_comparison)) collision_locks
  end.

(** The flush at the end of [NegotiateCollision]. *)
Definition flush_collision_lock (hazard : bool) (reference_vehicle_id : ActorId)
    (collision_locks : CollisionLockMap) : CollisionLockMap :=
  if negb hazard && bool_decide (is_Some (collision_locks !! reference_vehicle_id))
  then delete reference_vehicle_id collision_locks
  else collision_locks.

Record Negotiation : Type := mkNegotiation {
  neg_hazard : bool;
  neg_margin : efloat;
  neg_geometry_cache : GeometryComparisonMap;
  neg_geodesic_boundary_map : GeodesicBoundaryMap;
  neg_collision_locks : CollisionLockMap
}.

(** The body of the outer [if] once the geometry is known: the hazard
    rule, the distance margin and the collision lock. *)
Definition negotiated (reference_vehicle_id other_actor_id : ActorId)
    (collision_locks : CollisionLockMap)
    (reference_vehicle_state other_vehicle_state : KinematicState)
    (reference_lead_distance : Q)
    (geometry_comparison : GeometryComparison)
    (geometry_cache : GeometryComparisonMap)
    (geodesic_boundary_map : GeodesicBoundaryMap) : Negotiation :=
  if negotiation_hazard geometry_comparison
       (ego_angular_priority reference_vehicle_state other_vehicle_state)
  then
    let specific_distance_margin :=
      MAX reference_lead_distance BOUNDARY_EXTENSION_MINIMUM in
    let available_distance_margin :=
      Fin (MAX (reference_vehicle_to_other_geodesic geometry_comparison
                - specific_distance_margin) 0) in
    mkNegotiation true available_distance_margin
      geometry_cache geodesic_boundary_map
      (flush_collision_lock true reference_vehicle_id
         (update_collision_lock reference_vehicle_id other_actor_id
            geometry_comparison collision_locks))
  else
    mkNegotiation false Inf geometry_cache geodesic_boundary_map
      (flush_collision_lock false reference_vehicle_id collision_locks).

Definition NegotiateCollision
    (reference_vehicle_id other_actor_id : ActorId)
    (geometry_cache : GeometryComparisonMap)
    (geodesic_boundary_map : GeodesicBoundaryMap)
    (collision_locks : CollisionLockMap)
    (reference_vehicle_state other_vehicle_state : KinematicState)
    (reference_vehicle_attributes other_vehicle_attributes : StaticAttributes)
    (reference_tl_state : TrafficLightState)
    (reference_vehicle_buffer other_vehicle_buffer : Buffer)
    (reference_junction_look_ahead_index : nat)
    (reference_lead_distance other_lead_distance : Q)
    : result Negotiation :=
  closest_point ← list_front reference_vehicle_buffer;
  look_ahead_point ← list_at reference_vehicle_buffer reference_junction_look_ahead_index;
  if negotiation_gate reference_vehicle_id other_actor_id collision_locks
       reference_vehicle_state other_vehicle_state
       reference_vehicle_attributes other_vehicle_attributes
       reference_tl_state closest_point look_ahead_point
  then
    '(geometry_comparison, geometry_cache', geodesic_boundary_map') ←
      GetGeometryBetweenActors geometry_cache geodesic_boundary_map
        reference_vehicle_id other_actor_id
        reference_vehicle_state other_vehicle_state
        reference_vehicle_attributes other_vehicle_attributes
        reference_vehicle_buffer other_vehicle_buffer
        collision_locks reference_lead_distance other_lead_distance;
    Ok (negotiated reference_vehicle_id other_actor_id collision_locks
          reference_vehicle_state other_vehicle_state reference_lead_distance
          geometry_comparison geometry_cache' geodesic_boundary_map')
  else
    Ok (mkNegotiation false Inf geometry_cache geodesic_boundary_map
          (flush_collision_lock false reference_vehicle_id collision_locks)).

(** ** CollisionAvoidance *)

(** Modelled from the spec: [GetLocation] and [GetType] of
    VehicleStateAndAttributeQuery.h, which is not under src/: the
    location and the type of the actor's entry in the snapshot. *)
Definition GetLocation (state_map : KinematicStateMap) (actor_id : ActorId)
    : result Location :=
  s ← map_at state_map actor_id; Ok (location s).
Definition GetType (attribute_map : StaticAttributeMap) (actor_id : ActorId)
    : result ActorType :=
  a ← map_at attribute_map actor_id; Ok (actor_type a).

(** The source of [rand()]: the sequence of values it returns and the
    number of calls made so far. *)
Record Rand : Type := mkRand { rand_values : nat → Z; rand_calls : nat }.

Definition rand (r : Rand) : Z * Rand :=
  (rand_values r (rand_calls r), mkRand (rand_values r) (S (rand_calls r))).

Record Verdict : Type := mkVerdict {
  obstacle_id : ActorId;
  collision_hazard : bool;
  verdict_margin : efloat;
  verdict_locks : CollisionLockMap;
  verdict_rand : Rand
}.

Section Driver.

Variable state_map : KinematicStateMap.
Variable attribute_map : StaticAttributeMap.
Variable tl_state_map : TrafficLightStateMap.
Variable buffer_map : BufferMap.
Variable parameters : Parameters.
Variable ego_actor_id : ActorId.
Variable ego_kinematic_state : KinematicState.
Variable ego_attributes : StaticAttributes.
Variable look_ahead_index : nat.
Variable reference_lead_distance : Q.

(** The first loop: the overlapping actors within the collision radius and
    the vertical overlap range, in iteration order. *)
Fixpoint filter_candidates (overlapping_actors : list ActorId)
    (collision_candidate_ids : list ActorId) : result (list ActorId) :=
  match overlapping_actors with
  | [] => Ok collision_candidate_ids
  | overlapping_actor_id :: rest =>
      let ego_location := location ego_kinematic_state in
      overlapping_actor_location ← GetLocation state_map overlapping_actor_id;
      if negb (bool_decide (overlapping_actor_id = ego_actor_id))
         && Qltb (DistanceSquared overlapping_actor_location ego_location)
                 (SQUARE MAX_COLLISION_RADIUS)
         && Qltb (Qabs (vz ego_location - vz overlapping_actor_location))
                 VERTICAL_OVERLAP_THRESHOLD
      then filter_candidates rest (collision_candidate_ids ++ [overlapping_actor_id])
      else filter_candidates rest collision_candidate_ids
  end.

(** The comparator handed to [std::sort].  Every candidate passed
    [GetLocation] in the first loop. *)
Definition closer_to_ego (a_id_1 a_id_2 : ActorId) : bool :=
  match state_map !! a_id_1, state_map !! a_id_2 with
  | Some s1, Some s2 =>
      Qltb (DistanceSquared (location ego_kinematic_state) (location s1))
           (DistanceSquared (location ego_kinematic_state) (location s2))
  | _, _ => false
  end.

Fixpoint insert_sorted (x : ActorId) (l : list ActorId) : list ActorId :=
  match l with
  | [] => [x]
  | y :: l' => if closer_to_ego y x then y :: insert_sorted x l' else x :: l
  end.

Definition sort_candidates (l : list ActorId) : list ActorId :=
  foldr insert_sorted [] l.

(** The ignore policy applied to a negotiated hazard: whether the hazard is
    committed, and the random source after the draw. *)
Definition commit_hazard (other_actor_type : ActorType) (rng : Rand) : bool * Rand :=
  match other_actor_type with
  | Vehicle =>
      let '(r, rng') := rand rng in
      (Qle_bool (GetPercentageIgnoreVehicles parameters ego_actor_id)
                (inject_Z (r mod 101)), rng')
  | Pedestrian =>
      let '(r, rng') := rand rng in
      (Qle_bool (GetPercentageIgnoreWalkers parameters ego_actor_id)
                (inject_Z (r mod 101)), rng')
  | Any => (false, rng)
  end.

(** The second loop, entered with [collision_hazard = false]. *)
Fixpoint check_candidates (collision_candidate_ids : list ActorId)
    (geometry_cache : GeometryComparisonMap)
    (geodesic_boundary_map : GeodesicBoundaryMap)
    (collision_locks : CollisionLockMap) (rng : Rand) : result Verdict :=
  match collision_candidate_ids with
  | [] => Ok (mkVerdict 0%N false Inf collision_locks rng)
  | other_actor_id :: rest =>
      other_actor_type ← GetType attribute_map other_actor_id;
      other_kinematic_state ← map_at state_map other_actor_id;
      other_attributes ← map_at attribute_map other_actor_id;
      if GetCollisionDetection parameters ego_actor_id other_actor_id
         && bool_decide (is_Some (tl_state_map !! ego_actor_id))
         && bool_decide (is_Some (buffer_map !! ego_actor_id))
         && bool_decide (is_Some (buffer_map !! other_actor_id))
      then
        let other_lead_distance :=
          GetDistanceToLeadingVehicle parameters other_actor_id in
        ego_tl_state ← map_at tl_state_map ego_actor_id;
        ego_buffer ← map_at buffer_map ego_actor_id;
        other_buffer ← map_at buffer_map other_actor_id;
        negotiation_result ←
          NegotiateCollision ego_actor_id other_actor_id
            geometry_cache geodesic_boundary_map collision_locks
            ego_kinematic_state other_kinematic_state
            ego_attributes other_attributes ego_tl_state
            ego_buffer other_buffer look_ahead_index
            reference_lead_distance other_lead_distance;
        if neg_hazard negotiation_result
        then
          let '(commit, rng') := commit_hazard other_actor_type rng in
          if commit
          then Ok (mkVerdict other_actor_id true (neg_margin negotiation_result)
                     (neg_collision_locks negotiation_result) rng')
          else check_candidates rest
                 (neg_geometry_cache negotiation_result)
                 (neg_geodesic_boundary_map negotiation_result)
                 (neg_collision_locks negotiation_result) rng'
        else check_candidates rest
               (neg_geometry_cache negotiation_result)
               (neg_geodesic_boundary_map negotiation_result)
               (neg_collision_locks negotiation_result) rng
      else check_candidates rest geometry_cache geodesic_boundary_map
             collision_locks rng
  end.

End Driver.

Record CollisionOutput : Type := mkCollisionOutput {
  out_collision_locks : CollisionLockMap;
  out_frame : list CollisionHazardData;
  out_rand : Rand
}.

(** [output_array->at(index)] followed by the three assignments. *)
Definition write_hazard (index : nat) (v : Verdict)
    (output_array : list CollisionHazardData) : result (list CollisionHazardData) :=
  _ ← list_at output_array index;
  Ok (<[index := mkCollisionHazardData (obstacle_id v) (verdict_margin v)
                   (collision_hazard v)]> output_array).

Definition CollisionAvoidance (index : nat) (vehicle_id_list : list ActorId)
    (state_map : KinematicStateMap) (attribute_map : StaticAttributeMap)
    (tl_state_map : TrafficLightStateMap) (buffer_map : BufferMap)
    (track_traffic : TrackTraffic) (parameters : Parameters)
    (collision_locks : CollisionLockMap)
    (output_array : list CollisionHazardData) (rng : Rand)
    : result CollisionOutput :=
  let geodesic_boundary_map : GeodesicBoundaryMap := ∅ in
  let geometry_cache : GeometryComparisonMap := ∅ in
  ego_actor_id ← list_at vehicle_id_list index;
  verdict ←
    match state_map !! ego_actor_id, attribute_map !! ego_actor_id with
    | Some ego_kinematic_state, Some ego_attributes =>
        ego_buffer ← map_at buffer_map ego_actor_id;
        target ← GetTargetWaypoint ego_buffer JUNCTION_LOOK_AHEAD;
        let look_ahead_index := snd target in
        let overlapping_actors := GetOverlappingVehicles track_traffic ego_actor_id in
        collision_candidate_ids ←
          filter_candidates state_map ego_actor_id ego_kinematic_state
            overlapping_actors [];
        let collision_candidate_ids :=
          sort_candidates state_map ego_kinematic_state collision_candidate_ids in
        let reference_lead_distance :=
          GetDistanceToLeadingVehicle parameters ego_actor_id in
        check_candidates state_map attribute_map tl_state_map buffer_map parameters
          ego_actor_id ego_kinematic_state ego_attributes look_ahead_index
          reference_lead_distance collision_candidate_ids
          geometry_cache geodesic_boundary_map collision_locks rng
    | _, _ => Ok (mkVerdict 0%N false Inf collision_locks rng)
    end;
  output_array' ← write_hazard index verdict output_array;
  Ok (mkCollisionOutput (verdict_locks verdict) output_array' (verdict_rand verdict)).

End CollisionStage.

(** ** MotionPlan *)

(** [std::max] and [std::min] of the C++ library. *)
Definition std_max (a b : Q) : Q := if Qltb a b then b else a.
Definition std_min (a b : Q) : Q := if Qltb b a then b else a.

(** [chr::system_clock]: the instants, in seconds, that successive calls of
    [now()] return, and the number of calls made so far. *)
Record Clock : Type := mkClock { clock_values : nat → Q; clock_calls : nat }.

Definition now (c : Clock) : Q * Clock :=
  (clock_values c (clock_calls c), mkClock (clock_values c) (S (clock_calls c))).

(** The three fields of [carla::rpc::VehicleControl] that the planner sets. *)
Record VehicleControl : Type := mkVehicleControl {
  vc_throttle : Q;
  vc_steer : Q;
  vc_brake : Q
}.

Inductive Command : Type :=
  | ApplyVehicleControl (actor : ActorId) (control : VehicleControl)
  | ApplyTransform (actor : ActorId) (transform : Transform).

Abbreviation PidStateMap := (gmap ActorId StateEntry).
Abbreviation TeleportationMap := (gmap ActorId Q).

Record MotionOutput : Type := mkMotionOutput {
  out_pid_state_map : PidStateMap;
  out_teleportation_instance : TeleportationMap;
  out_control_frame : list Command;
  out_clock : Clock
}.

Section MotionPlanner.

Context `{Externals}.

(** The collision part of the target resolver: the dynamic target velocity
    before clipping and [collision_emergency_stop]. *)
Definition collision_response (state_map : KinematicStateMap)
    (ego_velocity ego_heading : Vector3D) (max_target_velocity : Q)
    (collision_hazard : CollisionHazardData) : result (Q * bool) :=
  if hazard collision_hazard
  then
    let other_actor_id := hazard_actor_id collision_hazard in
    other_kinematic_state ← map_at state_map other_actor_id;
    let other_velocity := velocity other_kinematic_state in
    let ego_relative_speed := Length (vsub ego_velocity other_velocity) in
    let available_distance_margin := available_distance_margin collision_hazard in
    let other_speed_along_heading := Dot other_velocity ego_heading in
    let '(dynamic_target_velocity, collision_emergency_stop) :=
      if Qgtb ego_relative_speed EPSILON_RELATIVE_SPEED
      then
        let follow_lead_distance :=
          ego_relative_speed * FOLLOW_DISTANCE_RATE + MIN_FOLLOW_LEAD_DISTANCE in
        if efloat_gtb available_distance_margin follow_lead_distance
        then (other_speed_along_heading + RELATIVE_APPROACH_SPEED, false)
        else if efloat_gtb available_distance_margin CRITICAL_BRAKING_MARGIN
        then (std_max other_speed_along_heading RELATIVE_APPROACH_SPEED, false)
        else (max_target_velocity, true)
      else (max_target_velocity, false) in
    if efloat_ltb available_distance_margin CRITICAL_BRAKING_MARGIN
    then Ok (dynamic_target_velocity, true)
    else Ok (dynamic_target_velocity, collision_emergency_stop)
  else Ok (max_target_velocity, false).

(** The pose of the teleport branch. *)
Definition teleport_target (waypoint_buffer : Buffer) (ego_location : Location)
    (dynamic_target_velocity : Q) : result Transform :=
  let target_displacement := dynamic_target_velocity * HYBRID_MODE_DT in
  target ← GetTargetWaypoint waypoint_buffer target_displacement;
  let teleport_target_waypoint := fst target in
  let base_displacement :=
    Length (vsub (wp_location teleport_target_waypoint) ego_location) in
  let missing_displacement :=
    if Qltb base_displacement target_displacement
    then target_displacement - base_displacement
    else 0 in
  let target_base_transform := wp_transform teleport_target_waypoint in
  let target_base_location := tr_location target_base_transform in
  let target_heading := GetForwardVector (tr_rotation target_base_transform) in
  let teleportation_location :=
    vadd target_base_location (vscale target_heading missing_displacement) in
  Ok (mkTransform teleportation_location (tr_rotation target_base_transform)).

(** The target resolver: the clipped dynamic target velocity and
    [emergency_stop]. *)
Definition target_resolver (state_map : KinematicStateMap)
    (attribute_map : StaticAttributeMap) (parameters : Parameters)
    (actor_id : ActorId) (ego_velocity ego_heading : Vector3D)
    (collision_hazard : CollisionHazardData) (tl_hazard : bool)
    : result (Q * bool) :=
  ego_attributes ← map_at attribute_map actor_id;
  let ego_speed_limit := speed_limit ego_attributes in
  let max_target_velocity :=
    GetVehicleTargetVelocity parameters actor_id ego_speed_limit / (36 # 10) in
  response ← collision_response state_map ego_velocity ego_heading
               max_target_velocity collision_hazard;
  let collision_emergency_stop := snd response in
  let dynamic_target_velocity := std_min max_target_velocity (fst response) in
  Ok (dynamic_target_velocity, tl_hazard || collision_emergency_stop).

(** A default-constructed [cg::Transform]. *)
Definition default_transform : Transform :=
  mkTransform (mkVector3D 0 0 0) (mkRotation 0 0 0).

(** What the two branches on [ego_physics_enabled] leave behind: the values
    of [current_state], [actuation_signal] and [teleportation_transform],
    the teleportation table and the clock. *)
Record Actuation : Type := mkActuation {
  act_state : StateEntry;
  act_signal : ActuationSignal;
  act_transform : Transform;
  act_teleportation_instance : TeleportationMap;
  act_clock : Clock
}.

(** The branch of a vehicle with physics: the PID controller. *)
Definition pid_branch (previous_state : StateEntry)
    (ego_speed dynamic_target_velocity current_deviation current_time : Q)
    (longitudinal_parameters lateral_parameters : list Q) (emergency_stop : bool)
    (teleportation_instance : TeleportationMap) (clock : Clock) : Actuation :=
  let current_state :=
    PID_StateUpdate previous_state ego_speed dynamic_target_velocity
      current_deviation current_time in
  let actuation_signal :=
    PID_RunStep current_state previous_state
      longitudinal_parameters lateral_parameters in
  if emergency_stop
  then mkActuation
         (mkStateEntry (deviation current_state) 0 (timestamp current_state)
            (st_velocity current_state) 0)
         (mkActuationSignal 0 1 (steer actuation_signal))
         default_transform teleportation_instance clock
  else mkActuation current_state actuation_signal
         default_transform teleportation_instance clock.

(** An entry is added to the teleportation clock table if not present. *)
Definition record_teleportation (actor_id : ActorId)
    (teleportation_instance : TeleportationMap) (clock : Clock)
    : TeleportationMap * Clock :=
  match teleportation_instance !! actor_id with
  | None => (map_insert actor_id (fst (now clock)) teleportation_instance,
             snd (now clock))
  | Some _ => (teleportation_instance, clock)
  end.

(** The branch of a vehicle without physics: teleportation. *)
Definition teleport_branch (parameters : Parameters) (actor_id : ActorId)
    (kinematic_state : KinematicState) (waypoint_buffer : Buffer)
    (dynamic_target_velocity current_time : Q) (emergency_stop : bool)
    (teleportation_instance : TeleportationMap) (clock : Clock)
    : result Actuation :=
  let ego_location := location kinematic_state in
  let t_flush := fst (now clock) in
  let clock3 := snd (now clock) in
  let current_state := mkStateEntry 0 0 t_flush 0 0 in
  let recorded := record_teleportation actor_id teleportation_instance clock3 in
  let teleportation_instance1 := fst recorded in
  let clock4 := snd recorded in
  instant ← map_at teleportation_instance1 actor_id;
  let elapsed_time := current_time - instant in
  teleportation_transform ←
    (if negb emergency_stop
        && (GetSynchronousMode parameters || Qgtb elapsed_time HYBRID_MODE_DT)
     then teleport_target waypoint_buffer ego_location dynamic_target_velocity
     else Ok (mkTransform ego_location (rotation kinematic_state)));
  Ok (mkActuation current_state (mkActuationSignal 0 0 0) teleportation_transform
        teleportation_instance1 clock4).

(** If the previous state of the vehicle is not found, a state entry is
    initialized. *)
Definition initialize_state_entry (actor_id : ActorId)
    (pid_state_map : PidStateMap) (clock : Clock) : PidStateMap * Clock :=
  match pid_state_map !! actor_id with
  | None =>
      (map_insert actor_id (mkStateEntry 0 0 (fst (now clock)) 0 0) pid_state_map,
       snd (now clock))
  | Some _ => (pid_state_map, clock)
  end.

Definition MotionPlan (index : nat) (vehicle_id_list : list ActorId)
    (state_map : KinematicStateMap) (attribute_map : StaticAttributeMap)
    (parameters : Parameters) (buffer_map : BufferMap)
    (urban_longitudinal_parameters highway_longitudinal_parameters : list Q)
    (urban_lateral_parameters highway_lateral_parameters : list Q)
    (collision_frame : list CollisionHazardData) (tl_frame : list bool)
    (pid_state_map : PidStateMap) (teleportation_instance : TeleportationMap)
    (output_array : list Command) (clock : Clock) : result MotionOutput :=
  actor_id ← list_at vehicle_id_list index;
  kinematic_state ← map_at state_map actor_id;
  let ego_location := location kinematic_state in
  let ego_velocity := velocity kinematic_state in
  let ego_speed := Length ego_velocity in
  let ego_heading := GetForwardVector (rotation kinematic_state) in
  let ego_physics_enabled := physics_enabled kinematic_state in
  waypoint_buffer ← map_at buffer_map actor_id;
  collision_hazard ← list_at collision_frame index;
  tl_hazard ← list_at tl_frame index;
  let target_point_distance :=
    std_max (ego_speed * TARGET_WAYPOINT_TIME_HORIZON) TARGET_WAYPOINT_HORIZON_LENGTH in
  target ← GetTargetWaypoint waypoint_buffer target_point_distance;
  let target_location := wp_location (fst target) in
  let dot_product := 1 - DeviationDotProduct ego_location ego_heading target_location in
  let cross_product := DeviationCrossProduct ego_location ego_heading target_location in
  let current_deviation :=
    if Qltb cross_product 0 then dot_product * (-1) else dot_product in
  let initialized := initialize_state_entry actor_id pid_state_map clock in
  let pid_state_map1 := fst initialized in
  let clock1 := snd initialized in
  previous_state ← map_at pid_state_map1 actor_id;
  let highway := Qgtb ego_speed HIGHWAY_SPEED in
  let longitudinal_parameters :=
    if highway then highway_longitudinal_parameters
    else urban_longitudinal_parameters in
  let lateral_parameters :=
    if highway then highway_lateral_parameters
    else urban_lateral_parameters in
  resolved ←
    target_resolver state_map attribute_map parameters actor_id
      ego_velocity ego_heading collision_hazard tl_hazard;
  let dynamic_target_velocity := fst resolved in
  let emergency_stop := snd resolved in
  let current_time := fst (now clock1) in
  let clock2 := snd (now clock1) in
  actuation ←
    (if ego_physics_enabled
     then Ok (pid_branch previous_state ego_speed dynamic_target_velocity
                current_deviation current_time longitudinal_parameters
                lateral_parameters emergency_stop teleportation_instance clock2)
     else teleport_branch parameters actor_id kinematic_state waypoint_buffer
            dynamic_target_velocity current_time emergency_stop
            teleportation_instance clock2);
  (* Updating PID state. *)
  _ ← map_at pid_state_map1 actor_id;
  let pid_state_map' := <[actor_id := act_state actuation]> pid_state_map1 in
  _ ← list_at output_array index;
  let command :=
    if ego_physics_enabled
    then ApplyVehicleControl actor_id
           (mkVehicleControl (throttle (act_signal actuation))
              (steer (act_signal actuation)) (brake (act_signal actuation)))
    else ApplyTransform actor_id (act_transform actuation) in
  Ok (mkMotionOutput pid_state_map' (act_teleportation_instance actuation)
        (<[index := command]> output_array) (act_clock actuation)).

End MotionPlanner.

(** ** Successive calls of MotionPlan

    The pipeline owns the PID table, the teleportation table, the control
    frame and the clock, and lends them to one call of [MotionPlan] after
    the other. *)

Record MotionCall : Type := mkMotionCall {
  call_index : nat;
  call_vehicle_id_list : list ActorId;
  call_state_map : KinematicStateMap;
  call_attribute_map : StaticAttributeMap;
  call_parameters : Parameters;
  call_buffer_map : BufferMap;
  call_urban_longitudinal : list Q;
  call_highway_longitudinal : list Q;
  call_urban_lateral : list Q;
  call_highway_lateral : list Q;
  call_collision_frame : list CollisionHazardData;
  call_tl_frame : list bool
}.

Definition MotionPlan_call `{Externals} (c : MotionCall) (s : MotionOutput)
    : result MotionOutput :=
  MotionPlan (call_index c) (call_vehicle_id_list c) (call_state_map c)
    (call_attribute_map c) (call_parameters c) (call_buffer_map c)
    (call_urban_longitudinal c) (call_highway_longitudinal c)
    (call_urban_lateral c) (call_highway_lateral c)
    (call_collision_frame c) (call_tl_frame c)
    (out_pid_state_map s) (out_teleportation_instance s)
    (out_control_frame s) (out_clock s).

Fixpoint MotionPlan_calls `{Externals} (cs : list MotionCall) (s : MotionOutput)
    : result MotionOutput :=
  match cs with
  | [] => Ok s
  | c :: cs' => s' ← MotionPlan_call c s; MotionPlan_calls cs' s'
  end.

(** ** The predicates of the specification

    The gating and geometric predicates in the words of the
    specification, as propositions over the rationals. *)

Module Spec.
Section Spec.

Context `{Externals}.

Definition unit (v : Vector3D) : Vector3D := normalize_guarded v.

Definition corridors_touching (g : GeometryComparison) : Prop :=
  inter_geodesic_distance g < 1 # 10.
Definition bodies_touching (g : GeometryComparison) : Prop :=
  inter_bbox_distance g < 1 # 10.
Definition ego_path_clear (g : GeometryComparison) : Prop :=
  1 # 10 < other_vehicle_to_reference_geodesic g.
Definition other_path_clear (g : GeometryComparison) : Prop :=
  1 # 10 < reference_vehicle_to_other_geodesic g.
Definition ego_path_priority (g : GeometryComparison) : Prop :=
  reference_vehicle_to_other_geodesic g < other_vehicle_to_reference_geodesic g.

(** [dot(ref.fwd, unit(other − ref)) < dot(other.fwd, unit(ref − other))]. *)
Definition ego_angular_priority (ref other : KinematicState) : Prop :=
  Dot (GetForwardVector (rotation ref)) (unit (vsub (location other) (location ref)))
  < Dot (GetForwardVector (rotation other)) (unit (vsub (location ref) (location other))).

(** The hazard rule, over the geometric predicates and the angular
    priority [angular]. *)
Definition hazard_rule (g : GeometryComparison) (angular : Prop) : Prop :=
  corridors_touching g
  ∧ ((¬ bodies_touching g
      ∧ (¬ ego_path_clear g
         ∨ (ego_path_clear g ∧ other_path_clear g
            ∧ ¬ angular ∧ ¬ ego_path_priority g)))
     ∨ (bodies_touching g ∧ ¬ angular ∧ ¬ ego_path_priority g)).


(** The gate: whether the pair proceeds to geometry. *)
Definition proceed_to_geometry
    (ref_id other_id : ActorId) (locks : CollisionLockMap)
    (ref other : KinematicState) (ref_attr other_attr : StaticAttributes)
    (tl : TrafficLightState) (buffer_0 buffer_lookahead : SimpleWaypoint) : Prop :=
  let d2 := DistanceSquared (location ref) (location other) in
  let ext_ref := GetBoundingBoxExtention ref_id ref locks in
  let ext_other := GetBoundingBoxExtention other_id other locks in
  let L := half_length ref_attr * SQUARE_ROOT_OF_TWO
           + half_length other_attr * SQUARE_ROOT_OF_TWO in
  let ego_range := (ext_ref + L) * (ext_ref + L) in
  let cross_range := (ext_ref + L + ext_other) * (ext_ref + L + ext_other) in
  let other_in_front :=
    0 < Dot (GetForwardVector (rotation ref))
            (unit (vsub (location other) (location ref))) in
  let ego_inside_junction := wp_junction buffer_0 = true in
  let ego_at_junction_entrance :=
    wp_junction buffer_0 = false ∧ wp_junction buffer_lookahead = true in
  let ego_stopped_by_light := tl_state tl ≠ Green in
  ¬ (ego_at_junction_entrance ∧ at_traffic_light tl = true ∧ ego_stopped_by_light)
  ∧ ((ego_inside_junction ∧ d2 < cross_range)
     ∨ (¬ ego_inside_junction ∧ other_in_front ∧ d2 < ego_range)).

End Spec.
End Spec.

(** ** A concrete setting

    An instance of the external parts, and the first scenario of the
    specification (a follower ten metres per second behind a slower lead on
    a straight road), used to run the definitions. *)

Module Scenario.

(** Square root to six decimal places. *)
Definition sqrt_fixed (q : Q) : Q :=
  Qred (Z.sqrt (Qnum q * 10 ^ 12 / Zpos (Qden q)) # 1000000).

(** The forward vector of a rotation without pitch whose yaw is a multiple
    of 90 degrees; the scenarios use no other rotation. *)
Definition cardinal_forward (r : Rotation) : Vector3D :=
  if Qeq_bool (yaw r) 90 then mkVector3D 0 1 0
  else if Qeq_bool (yaw r) 180 then mkVector3D (-1) 0 0
  else if Qeq_bool (yaw r) 270 then mkVector3D 0 (-1) 0
  else mkVector3D 1 0 0.

Definition coordinate_min (xs : list Q) : Q :=
  match xs with [] => 0 | x :: xs' => foldr MIN x xs' end.
Definition coordinate_max (xs : list Q) : Q :=
  match xs with [] => 0 | x :: xs' => foldr MAX x xs' end.

(** The gap between two intervals, 0 when they meet. *)
Definition interval_gap (lo1 hi1 lo2 hi2 : Q) : Q :=
  MAX 0 (MAX (lo2 - hi1) (lo1 - hi2)).

(** Distance between the axis-parallel bounding rectangles of two rings:
    the polygon distance when both rings are axis-parallel rectangles, as
    they are in the scenarios. *)
Definition rectangle_distance (p q : Polygon) : Q :=
  let dx := interval_gap (coordinate_min (map px p)) (coordinate_max (map px p))
                         (coordinate_min (map px q)) (coordinate_max (map px q)) in
  let dy := interval_gap (coordinate_min (map py p)) (coordinate_max (map py p))
                         (coordinate_min (map py q)) (coordinate_max (map py q)) in
  Qred (sqrt_fixed (dx * dx + dy * dy)).

(** Modelled from the spec: [GetTargetWaypoint] of LocalizationUtils.h,
    which is not under src/: the buffer entry at the given along-route
    distance from the front of the buffer (the last entry when the buffer
    is shorter), with its index. *)
Fixpoint scan_buffer (front x : SimpleWaypoint) (rest : Buffer) (d2 : Q) (i : nat)
    : TargetWPInfo :=
  match rest with
  | [] => (x, i)
  | y :: rest' =>
      if Qltb (wp_DistanceSquared front x) d2
      then scan_buffer front y rest' d2 (S i)
      else (x, i)
  end.

Definition target_waypoint (waypoint_buffer : Buffer) (target_point_distance : Q)
    : result TargetWPInfo :=
  match waypoint_buffer with
  | [] => Raise empty_front
  | front :: rest =>
      Ok (scan_buffer front front rest (target_point_distance * target_point_distance) 0)
  end.

(** A proportional controller standing for PIDController.h. *)
Definition clamp (lo hi x : Q) : Q := MAX lo (MIN hi x).

Definition state_update (previous_state : StateEntry)
    (current_velocity target_velocity angular_deviation current_time : Q) : StateEntry :=
  let dt := current_time - timestamp previous_state in
  let velocity_error := Qred (current_velocity - target_velocity) in
  mkStateEntry angular_deviation
    (Qred (deviation_integral previous_state + angular_deviation * dt))
    current_time velocity_error
    (Qred (velocity_integral previous_state + velocity_error * dt)).

Definition run_step (present_state previous_state : StateEntry)
    (longitudinal_parameters lateral_parameters : list Q) : ActuationSignal :=
  let kp := nth 0 longitudinal_parameters 1 in
  let kl := nth 0 lateral_parameters 1 in
  let expr := Qred (kp * st_velocity present_state) in
  if Qltb expr 0
  then mkActuationSignal (clamp 0 1 (- expr)) 0 (clamp (-1) 1 (kl * deviation present_state))
  else mkActuationSignal 0 (clamp 0 1 expr) (clamp (-1) 1 (kl * deviation present_state)).

Definition direction_to (ego_location target_location : Location) : Vector3D :=
  let v := vsub target_location ego_location in
  let m := sqrt_fixed (SquaredLength v) in
  if Qgtb m 0 then vdiv v m else v.

Definition deviation_dot (ego_location : Location) (heading : Vector3D)
    (target_location : Location) : Q :=
  Qred (Dot heading (direction_to ego_location target_location)).

Definition deviation_cross (ego_location : Location) (heading : Vector3D)
    (target_location : Location) : Q :=
  let t := direction_to ego_location target_location in
  Qred (vx heading * vy t - vy heading * vx t).

#[export] Instance externals : Externals := {|
  sqrtf := sqrt_fixed;
  GetForwardVector := cardinal_forward;
  bg_distance := rectangle_distance;
  BOUNDARY_EXTENSION_RATE := 27 # 20;
  BOUNDARY_EXTENSION_MINIMUM := 5 # 2;
  LOCKING_DISTANCE_PADDING := 4;
  MAX_LOCKING_EXTENSION := 10;
  WALKER_TIME_EXTENSION := 3 # 2;
  COS_10_DEGREES := 9848 # 10000;
  SQUARE_ROOT_OF_TWO := 1414 # 1000;
  MAX_COLLISION_RADIUS := 100;
  VERTICAL_OVERLAP_THRESHOLD := 4;
  JUNCTION_LOOK_AHEAD := 10;
  TARGET_WAYPOINT_TIME_HORIZON := 3 # 10;
  TARGET_WAYPOINT_HORIZON_LENGTH := 1;
  RELATIVE_APPROACH_SPEED := 100 # 36;
  MIN_FOLLOW_LEAD_DISTANCE := 5;
  FOLLOW_DISTANCE_RATE := 18 # 100;
  CRITICAL_BRAKING_MARGIN := 1 # 4;
  EPSILON_RELATIVE_SPEED := 1 # 1000;
  HIGHWAY_SPEED := 500 # 36;
  HYBRID_MODE_DT := 1 # 20;
  GetTargetWaypoint := target_waypoint;
  DeviationDotProduct := deviation_dot;
  DeviationCrossProduct := deviation_cross;
  PID_StateUpdate := state_update;
  PID_RunStep := run_step
|}.

(** A straight road along the x axis: the waypoints at [x0], [x0 + 1], ... *)
Definition road_waypoint (x : Z) : SimpleWaypoint :=
  mkSimpleWaypoint (mkTransform (mkVector3D (inject_Z x) 0 0) (mkRotation 0 0 0))
    (mkVector3D 1 0 0) false.

Definition road (x0 : Z) (n : nat) : Buffer :=
  map (λ i, road_waypoint (x0 + Z.of_nat i)) (seq 0 n).

Definition ego : ActorId := 1%N.
Definition lead : ActorId := 2%N.

Definition car : StaticAttributes := mkStaticAttributes Vehicle (23 # 10) 1 36.

Definition ego_state : KinematicState :=
  mkKinematicState (mkVector3D 0 0 0) (mkRotation 0 0 0) (mkVector3D 10 0 0) true.
Definition lead_state : KinematicState :=
  mkKinematicState (mkVector3D 20 0 0) (mkRotation 0 0 0) (mkVector3D 5 0 0) true.

Definition state_map : KinematicStateMap := {[ ego := ego_state; lead := lead_state ]}.
Definition attribute_map : StaticAttributeMap := {[ ego := car; lead := car ]}.
Definition tl_state_map : TrafficLightStateMap :=
  {[ ego := mkTrafficLightState Green false; lead := mkTrafficLightState Green false ]}.
Definition buffer_map : BufferMap := {[ ego := road 0 31; lead := road 20 31 ]}.

Definition track_traffic : TrackTraffic :=
  mkTrackTraffic (λ id, if decide (id = ego) then [lead] else [ego]).

(** The parameters, with the percentage of vehicles to ignore left open. *)
Definition parameters (ignore_vehicles : Q) : Parameters :=
  mkParameters (λ _, 1) (λ _ _, true) (λ _, ignore_vehicles) (λ _, 0)
    (λ _ speed_limit, speed_limit) false.

Definition no_hazard : CollisionHazardData := mkCollisionHazardData 0%N Inf false.

(** A random source that always returns 0. *)
Definition zeros : Rand := mkRand (λ _, 0%Z) 0.

Definition green : TrafficLightState := mkTrafficLightState Green false.

(** The geometry of the follower and its lead: the body of the follower is
    15.4 m from the corridor of the lead, the lead is inside the corridor
    of the follower. *)
Definition follower_geometry : GeometryComparison :=
  mkGeometryComparison (77 # 5) 0 0 (77 # 5).

(** A crossing: the other actor is to the left of the ego and heads
    towards it. *)
Definition crossing_state : KinematicState :=
  mkKinematicState (mkVector3D 0 10 0) (mkRotation 0 270 0) (mkVector3D 0 (-5) 0) true.

(** The follower without physics. *)
Definition ghost_state : KinematicState :=
  mkKinematicState (mkVector3D 0 0 0) (mkRotation 0 0 0) (mkVector3D 10 0 0) false.

(** A clock that returns 1 s, 2 s, ... *)
Definition seconds : Clock := mkClock (λ n, inject_Z (Z.of_nat n) + 1) 0.

(** A record with a margin but without hazard, as no call of
    CollisionAvoidance writes it. *)
Definition stale_record : CollisionHazardData := mkCollisionHazardData 0%N (Fin 0) false.

Definition idle : Command := ApplyTransform 0%N default_transform.

(** A call of the planner for the follower, with the state of the follower,
    the hazard record and the traffic light hazard left open. *)
Definition plan_call (s : KinematicState) (record : CollisionHazardData)
    (tl_hazard : bool) : MotionCall :=
  mkMotionCall 0 [ego] {[ ego := s; lead := lead_state ]} attribute_map
    (parameters 0) buffer_map [1] [1] [1] [1] [record] [tl_hazard].

Definition plan_start (teleportation_instance : TeleportationMap) : MotionOutput :=
  mkMotionOutput ∅ teleportation_instance [idle] seconds.

(** A crossing of two corridors: a short ego at the origin heading along
    x, and a longer actor at (10, 11) heading down the road x = 10 towards
    the corridor of the ego. *)
Definition short_car : StaticAttributes := mkStaticAttributes Vehicle 1 1 36.

Definition crossing_waypoint (y : Z) : SimpleWaypoint :=
  mkSimpleWaypoint (mkTransform (mkVector3D 10 (inject_Z y) 0) (mkRotation 0 270 0))
    (mkVector3D 0 (-1) 0) false.

(** The waypoints at [y0], [y0 - 1], ... of the road x = 10. *)
Definition crossing_road (y0 : Z) (n : nat) : Buffer :=
  map (λ i, crossing_waypoint (y0 - Z.of_nat i)) (seq 0 n).

Definition crossing_actor : KinematicState :=
  mkKinematicState (mkVector3D 10 11 0) (mkRotation 0 270 0) (mkVector3D 0 (-5) 0) true.

End Scenario.

(** * Properties *)

(** ** Comparisons and maxima *)

Lemma Qltb_lt (a b : Q) : Qltb a b = true ↔ a < b.
Proof.
  unfold Qltb. rewrite negb_true_iff, <- not_true_iff_false, Qle_bool_iff.
  split; [apply Qnot_le_lt | apply Qlt_not_le].
Qed.

Lemma Qltb_ge (a b : Q) : Qltb a b = false ↔ b <= a.
Proof.
  unfold Qltb. rewrite negb_false_iff. apply Qle_bool_iff.
Qed.

Lemma Qgtb_gt (a b : Q) : Qgtb a b = true ↔ b < a.
Proof. apply Qltb_lt. Qed.

Lemma MAX_Qmax (a b : Q) : MAX a b == Qmax a b.
Proof.
  unfold MAX. destruct (Qgtb a b) eqn:E.
  - apply Qgtb_gt in E. symmetry. apply Q.max_l. apply Qlt_le_weak, E.
  - apply Qltb_ge in E. symmetry. apply Q.max_r, E.
Qed.



(** Decides a propositional combination of atoms once each boolean of the
    code is tied to its atom. *)
Ltac reflect_atoms :=
  repeat match goal with
         | H : ?b = true ↔ _ |- _ =>
             lazymatch b with
             | true => fail
             | false => fail
             | _ => destruct b
             end
         end;
  simpl; intuition congruence.

(** Inverts the first step of a sequence of steps that returned: the step
    returned. *)
Ltac step_ok H :=
  unfold mbind, result_bind in H;
  lazymatch type of H with
  | match ?e with Ok _ => _ | Raise _ => _ end = Ok _ =>
      let E := fresh "Hstep" in
      destruct e eqn:E; [|discriminate H]
  end.

Tactic Notation "returned" hyp(H) "as" ident(E) :=
  unfold mbind, result_bind in H; cbv beta iota in H;
  lazymatch type of H with
  | match ?e with Ok _ => _ | Raise _ => _ end = Ok _ =>
      destruct e eqn:E; [|discriminate H]
  end.

Lemma map_at_Ok {V} (m : gmap N V) (k : N) (v : V) : map_at m k = Ok v ↔ m !! k = Some v.
Proof.
  unfold map_at. destruct (m !! k); split; intros E; congruence.
Qed.

Tactic Notation "returned" hyp(H) "as" ident(E) "value" ident(x) :=
  unfold mbind, result_bind in H; cbv beta iota in H;
  lazymatch type of H with
  | match ?e with Ok _ => _ | Raise _ => _ end = Ok _ =>
      destruct e as [x|] eqn:E; [|discriminate H]
  end.

Lemma map_at_None {V} (m : gmap N V) (k : N) :
  m !! k = None → map_at m k = Raise out_of_range.
Proof. unfold map_at. intros ->. reflexivity. Qed.

Lemma list_at_None {A} (l : list A) (i : nat) :
  l !! i = None → list_at l i = Raise out_of_range.
Proof. unfold list_at. intros ->. reflexivity. Qed.

Lemma list_at_Ok {A} (l : list A) (i : nat) (v : A) : list_at l i = Ok v ↔ l !! i = Some v.
Proof.
  unfold list_at. destruct (l !! i); split; intros E; congruence.
Qed.

Section Negotiation.

Context `{Externals}.

(** ** The gate of NegotiateCollision *)

Lemma negotiation_gate_spec
    (reference_vehicle_id other_actor_id : ActorId) (collision_locks : CollisionLockMap)
    (reference_vehicle_state other_vehicle_state : KinematicState)
    (reference_vehicle_attributes other_vehicle_attributes : StaticAttributes)
    (reference_tl_state : TrafficLightState)
    (closest_point look_ahead_point : SimpleWaypoint) :
  negotiation_gate reference_vehicle_id other_actor_id collision_locks
    reference_vehicle_state other_vehicle_state
    reference_vehicle_attributes other_vehicle_attributes
    reference_tl_state closest_point look_ahead_point = true
  ↔ Spec.proceed_to_geometry reference_vehicle_id other_actor_id collision_locks
      reference_vehicle_state other_vehicle_state
      reference_vehicle_attributes other_vehicle_attributes
      reference_tl_state closest_point look_ahead_point.
Proof.
  unfold negotiation_gate, Spec.proceed_to_geometry, Spec.unit, SQUARE, CheckJunction.
  cbv zeta.
  set (d2 := DistanceSquared _ _).
  set (ext_ref := GetBoundingBoxExtention reference_vehicle_id _ _).
  set (ext_other := GetBoundingBoxExtention other_actor_id _ _).
  set (L := _ * SQUARE_ROOT_OF_TWO + _ * SQUARE_ROOT_OF_TWO).
  set (ego_range := (ext_ref + L) * (ext_ref + L)).
  set (cross_range := (ext_ref + L + ext_other) * (ext_ref + L + ext_other)).
  set (front := Dot _ _).
  pose proof (Qltb_lt d2 ego_range) as Hego.
  pose proof (Qltb_lt d2 cross_range) as Hcross.
  pose proof (Qgtb_gt front 0) as Hfront.
  assert (bool_decide (tl_state reference_tl_state = Green) = true
          ↔ tl_state reference_tl_state = Green) as Hgreen
    by apply bool_decide_eq_true.
  destruct (Qltb d2 ego_range), (Qltb d2 cross_range), (Qgtb front 0),
    (bool_decide (tl_state reference_tl_state = Green)),
    (wp_junction closest_point), (wp_junction look_ahead_point),
    (at_traffic_light reference_tl_state);
    simpl; intuition congruence.
Qed.

(** ** The hazard rule *)

Lemma negotiation_hazard_spec (g : GeometryComparison) (angular : bool) :
  negotiation_hazard g angular = true ↔ Spec.hazard_rule g (angular = true).
Proof.
  unfold negotiation_hazard, Spec.hazard_rule, Spec.corridors_touching,
    Spec.bodies_touching, Spec.ego_path_clear, Spec.other_path_clear,
    Spec.ego_path_priority.
  cbv zeta.
  pose proof (Qltb_lt (inter_geodesic_distance g) (1 # 10)) as Hgeo.
  pose proof (Qltb_lt (inter_bbox_distance g) (1 # 10)) as Hbox.
  pose proof (Qgtb_gt (other_vehicle_to_reference_geodesic g) (1 # 10)) as Hego.
  pose proof (Qgtb_gt (reference_vehicle_to_other_geodesic g) (1 # 10)) as Hother.
  pose proof (Qltb_lt (reference_vehicle_to_other_geodesic g)
                (other_vehicle_to_reference_geodesic g)) as Hprio.
  destruct angular; reflect_atoms.
Qed.

Section Call.

Variables reference_vehicle_id other_actor_id : ActorId.
Variable geometry_cache : GeometryComparisonMap.
Variable geodesic_boundary_map : GeodesicBoundaryMap.
Variable collision_locks : CollisionLockMap.
Variables reference_vehicle_state other_vehicle_state : KinematicState.
Variables reference_vehicle_attributes other_vehicle_attributes : StaticAttributes.
Variable reference_tl_state : TrafficLightState.
Variables reference_vehicle_buffer other_vehicle_buffer : Buffer.
Variable reference_junction_look_ahead_index : nat.
Variables reference_lead_distance other_lead_distance : Q.

Local Abbreviation negotiate :=
  (NegotiateCollision reference_vehicle_id other_actor_id
     geometry_cache geodesic_boundary_map collision_locks
     reference_vehicle_state other_vehicle_state
     reference_vehicle_attributes other_vehicle_attributes reference_tl_state
     reference_vehicle_buffer other_vehicle_buffer
     reference_junction_look_ahead_index
     reference_lead_distance other_lead_distance).

Local Abbreviation geometry :=
  (GetGeometryBetweenActors geometry_cache geodesic_boundary_map
     reference_vehicle_id other_actor_id
     reference_vehicle_state other_vehicle_state
     reference_vehicle_attributes other_vehicle_attributes
     reference_vehicle_buffer other_vehicle_buffer
     collision_locks reference_lead_distance other_lead_distance).

Local Abbreviation gate closest_point look_ahead_point :=
  (negotiation_gate reference_vehicle_id other_actor_id collision_locks
     reference_vehicle_state other_vehicle_state
     reference_vehicle_attributes other_vehicle_attributes
     reference_tl_state closest_point look_ahead_point).

Local Abbreviation outcome g cache boundaries :=
  (negotiated reference_vehicle_id other_actor_id collision_locks
     reference_vehicle_state other_vehicle_state reference_lead_distance
     g cache boundaries).

Local Abbreviation stopped_at_gate :=
  (mkNegotiation false Inf geometry_cache geodesic_boundary_map
     (flush_collision_lock false reference_vehicle_id collision_locks)).

Lemma NegotiateCollision_closed (closest_point look_ahead_point : SimpleWaypoint) :
  list_front reference_vehicle_buffer = Ok closest_point →
  list_at reference_vehicle_buffer reference_junction_look_ahead_index
    = Ok look_ahead_point →
  gate closest_point look_ahead_point = false →
  negotiate = Ok stopped_at_gate.
Proof.
  intros Hfront Hat Hgate. unfold NegotiateCollision.
  rewrite Hfront. simpl. rewrite Hat. simpl. rewrite Hgate. reflexivity.
Qed.

Lemma NegotiateCollision_open (closest_point look_ahead_point : SimpleWaypoint) :
  list_front reference_vehicle_buffer = Ok closest_point →
  list_at reference_vehicle_buffer reference_junction_look_ahead_index
    = Ok look_ahead_point →
  gate closest_point look_ahead_point = true →
  negotiate = match geometry with
              | Ok (g, cache, boundaries) => Ok (outcome g cache boundaries)
              | Raise e => Raise e
              end.
Proof.
  intros Hfront Hat Hgate. unfold NegotiateCollision.
  rewrite Hfront. simpl. rewrite Hat. simpl. rewrite Hgate.
  destruct geometry as [[[g cache] boundaries]|e]; reflexivity.
Qed.

(** A call that returns has read both points of the buffer. *)
Lemma NegotiateCollision_points (r : Negotiation) :
  negotiate = Ok r →
  ∃ closest_point look_ahead_point,
    list_front reference_vehicle_buffer = Ok closest_point
    ∧ list_at reference_vehicle_buffer reference_junction_look_ahead_index
      = Ok look_ahead_point.
Proof.
  unfold NegotiateCollision. intros Hr.
  destruct (list_front reference_vehicle_buffer) as [cp|e]; [|discriminate].
  destruct (list_at reference_vehicle_buffer _) as [lp|e]; [|discriminate].
  eauto.
Qed.

(** A call that returns either stopped at the gate or is the negotiation of
    the geometry it obtained. *)
Lemma NegotiateCollision_cases (r : Negotiation) :
  negotiate = Ok r →
  r = stopped_at_gate
  ∨ ∃ g cache boundaries,
      geometry = Ok (g, cache, boundaries) ∧ r = outcome g cache boundaries.
Proof.
  intros Hr. destruct (NegotiateCollision_points r Hr) as (cp & lp & Hfront & Hat).
  destruct (gate cp lp) eqn:Hgate.
  - rewrite (NegotiateCollision_open cp lp Hfront Hat Hgate) in Hr.
    destruct geometry as [[[g cache] boundaries]|e]; [|discriminate].
    right. exists g, cache, boundaries. split; [reflexivity|congruence].
  - rewrite (NegotiateCollision_closed cp lp Hfront Hat Hgate) in Hr.
    left. congruence.
Qed.

(** The lock of the reference vehicle after the locking mechanism. *)
Lemma update_collision_lock_lookup (g : GeometryComparison) :
  ∃ lock,
    update_collision_lock reference_vehicle_id other_actor_id g collision_locks
      !! reference_vehicle_id = Some lock
    ∧ lead_vehicle_id lock = other_actor_id.
Proof.
  unfold update_collision_lock, map_insert.
  destruct (collision_locks !! reference_vehicle_id) as [lock|] eqn:Hlock.
  - destruct (decide (other_actor_id = lead_vehicle_id lock)) as [->|Hne].
    + destruct (Qltb _ _); eexists; (split; [apply lookup_insert_eq|reflexivity]).
    + eexists. split; [apply lookup_insert_eq|reflexivity].
  - eexists. split; [apply lookup_insert_eq|reflexivity].
Qed.

Lemma flush_collision_lock_lookup (locks : CollisionLockMap) :
  flush_collision_lock false reference_vehicle_id locks !! reference_vehicle_id = None.
Proof.
  unfold flush_collision_lock. simpl. case_bool_decide as Hsome.
  - apply lookup_delete_eq.
  - destruct (locks !! reference_vehicle_id) eqn:E; [|reflexivity].
    exfalso. apply Hsome. eauto.
Qed.

(** After a call, the reference vehicle holds a lock exactly when the call
    found a hazard, and the lock is then on the other actor. *)
Lemma NegotiateCollision_lock (r : Negotiation) :
  negotiate = Ok r →
  (is_Some (neg_collision_locks r !! reference_vehicle_id) ↔ neg_hazard r = true)
  ∧ (neg_hazard r = true →
     ∃ lock, neg_collision_locks r !! reference_vehicle_id = Some lock
             ∧ lead_vehicle_id lock = other_actor_id).
Proof.
  intros Hr.
  destruct (NegotiateCollision_cases r Hr) as [->|(g & cache & boundaries & _ & ->)].
  - simpl. rewrite flush_collision_lock_lookup. split.
    + split; [intros [? ?]; discriminate|discriminate].
    + discriminate.
  - unfold negotiated. destruct (negotiation_hazard _ _); simpl.
    + destruct (update_collision_lock_lookup g) as (lock & Hlock & Hlead).
      split; [split; eauto|eauto].
    + rewrite flush_collision_lock_lookup. split.
      * split; [intros [? ?]; discriminate|discriminate].
      * discriminate.
Qed.


(** X21. For an ordered pair that passes the gate, NegotiateCollision returns
    hazard = true exactly when the corridors touch and either the bodies
    do not touch and (the ego path is not clear, or both paths are clear
    and the ego has neither angular nor path priority), or the bodies
    touch and the ego has neither angular nor path priority.  The five
    geometric predicates are read from the GeometryComparison of the
    pair; the angular priority is the value that the call computes for
    its local [ego_angular_priority], with both headings taken from the
    reference vehicle. *)
Theorem X21_hazard_rule_on_code_priority (closest_point look_ahead_point : SimpleWaypoint)
    (g : GeometryComparison) (cache : GeometryComparisonMap)
    (boundaries : GeodesicBoundaryMap) :
  list_front reference_vehicle_buffer = Ok closest_point →
  list_at reference_vehicle_buffer reference_junction_look_ahead_index
    = Ok look_ahead_point →
  Spec.proceed_to_geometry reference_vehicle_id other_actor_id collision_locks
    reference_vehicle_state other_vehicle_state
    reference_vehicle_attributes other_vehicle_attributes
    reference_tl_state closest_point look_ahead_point →
  geometry = Ok (g, cache, boundaries) →
  ∃ r, negotiate = Ok r
       ∧ (neg_hazard r = true
          ↔ Spec.hazard_rule g
              (ego_angular_priority reference_vehicle_state other_vehicle_state = true)).
Proof.
  intros Hfront Hat Hgate Hg. apply negotiation_gate_spec in Hgate.
  rewrite (NegotiateCollision_open _ _ Hfront Hat Hgate), Hg.
  eexists. split; [reflexivity|].
  rewrite <- negotiation_hazard_spec. unfold negotiated.
  destruct (negotiation_hazard _ _); simpl; split; congruence.
Qed.

(** C5. NegotiateCollision evaluates the geometry exactly when the gate of
    the specification holds: when it fails the call returns hazard = false
    with an infinite margin and leaves both caches as they were; when it
    holds the call returns what the geometry of the pair decides, with the
    caches that GetGeometryBetweenActors left, and fails when that fails. *)
Theorem C5_gate (closest_point look_ahead_point : SimpleWaypoint) :
  list_front reference_vehicle_buffer = Ok closest_point →
  list_at reference_vehicle_buffer reference_junction_look_ahead_index
    = Ok look_ahead_point →
  let proceed :=
    Spec.proceed_to_geometry reference_vehicle_id other_actor_id collision_locks
      reference_vehicle_state other_vehicle_state
      reference_vehicle_attributes other_vehicle_attributes
      reference_tl_state closest_point look_ahead_point in
  (¬ proceed →
   ∃ r, negotiate = Ok r
        ∧ neg_hazard r = false ∧ neg_margin r = Inf
        ∧ neg_geometry_cache r = geometry_cache
        ∧ neg_geodesic_boundary_map r = geodesic_boundary_map)
  ∧ (proceed →
     (∀ e, geometry = Raise e → negotiate = Raise e)
     ∧ (∀ g cache boundaries,
          geometry = Ok (g, cache, boundaries) →
          ∃ r, negotiate = Ok r
               ∧ neg_hazard r
                 = negotiation_hazard g
                     (ego_angular_priority reference_vehicle_state other_vehicle_state)
               ∧ neg_geometry_cache r = cache
               ∧ neg_geodesic_boundary_map r = boundaries)).
Proof.
  intros Hfront Hat proceed. subst proceed. split.
  - intros Hno. rewrite <- negotiation_gate_spec in Hno.
    apply not_true_is_false in Hno.
    rewrite (NegotiateCollision_closed _ _ Hfront Hat Hno).
    eexists. split; [reflexivity|]. simpl. auto.
  - intros Hyes. apply negotiation_gate_spec in Hyes.
    rewrite (NegotiateCollision_open _ _ Hfront Hat Hyes). split.
    + intros e ->. reflexivity.
    + intros g cache boundaries ->. eexists. split; [reflexivity|].
      unfold negotiated. destruct (negotiation_hazard _ _); simpl; auto.
Qed.

End Call.

End Negotiation.

(** ** The driver *)

Section DriverProperties.

Context `{Externals}.

Variable state_map : KinematicStateMap.
Variable attribute_map : StaticAttributeMap.
Variable tl_state_map : TrafficLightStateMap.
Variable buffer_map : BufferMap.
Variable parameters : Parameters.
Variable ego_actor_id : ActorId.
Variable ego_kinematic_state : KinematicState.
Variable ego_attributes : StaticAttributes.
Variable look_ahead_index : nat.
Variable reference_lead_distance : Q.

Local Abbreviation loop :=
  (check_candidates state_map attribute_map tl_state_map buffer_map parameters
     ego_actor_id ego_kinematic_state ego_attributes look_ahead_index
     reference_lead_distance).

(** A verdict is committed by a negotiation: the call of NegotiateCollision
    (on some state of the caches and locks) for the obstacle found a hazard
    and left the margin and the locks of the verdict. *)
Local Abbreviation committed v :=
  (∃ other_state other_attributes ego_tl_state ego_buffer other_buffer
     geometry_cache geodesic_boundary_map collision_locks r,
     state_map !! obstacle_id v = Some other_state
     ∧ attribute_map !! obstacle_id v = Some other_attributes
     ∧ tl_state_map !! ego_actor_id = Some ego_tl_state
     ∧ buffer_map !! ego_actor_id = Some ego_buffer
     ∧ buffer_map !! obstacle_id v = Some other_buffer
     ∧ NegotiateCollision ego_actor_id (obstacle_id v)
         geometry_cache geodesic_boundary_map collision_locks
         ego_kinematic_state other_state ego_attributes other_attributes
         ego_tl_state ego_buffer other_buffer look_ahead_index
         reference_lead_distance
         (GetDistanceToLeadingVehicle parameters (obstacle_id v)) = Ok r
     ∧ neg_hazard r = true
     ∧ verdict_margin v = neg_margin r
     ∧ verdict_locks v = neg_collision_locks r).

Lemma check_candidates_verdict (collision_candidate_ids : list ActorId) :
  ∀ geometry_cache geodesic_boundary_map collision_locks rng v,
    loop collision_candidate_ids geometry_cache geodesic_boundary_map
      collision_locks rng = Ok v →
    (collision_hazard v = false → verdict_margin v = Inf)
    ∧ (collision_hazard v = true → committed v).
Proof.
  induction collision_candidate_ids as [|other rest IH];
    intros cache boundaries locks rng v Hv; simpl in Hv.
  - injection Hv as <-. simpl. split; [reflexivity|discriminate].
  - step_ok Hv. step_ok Hv. step_ok Hv.
    match type of Hv with
    | (if ?c then _ else _) = _ => destruct c eqn:Hcond; [|eauto]
    end.
    step_ok Hv. step_ok Hv. step_ok Hv. step_ok Hv.
    match type of Hv with
    | (if ?c then _ else _) = _ => destruct c eqn:Hhazard; [|eauto]
    end.
    destruct (commit_hazard _ _ _ _) as [commit rng'].
    destruct commit; [|eauto].
    injection Hv as <-. simpl. split; [discriminate|]. intros _.
    repeat match goal with
           | E : map_at _ _ = Ok _ |- _ => apply map_at_Ok in E
           end.
    do 9 eexists. repeat split; eauto.
Qed.

End DriverProperties.

Section DriverCall.

Context `{Externals}.

Variable index : nat.
Variable vehicle_id_list : list ActorId.
Variable state_map : KinematicStateMap.
Variable attribute_map : StaticAttributeMap.
Variable tl_state_map : TrafficLightStateMap.
Variable buffer_map : BufferMap.
Variable track_traffic : TrackTraffic.
Variable parameters : Parameters.
Variable collision_locks : CollisionLockMap.
Variable output_array : list CollisionHazardData.
Variable rng : Rand.

Local Abbreviation drive :=
  (CollisionAvoidance index vehicle_id_list state_map attribute_map tl_state_map
     buffer_map track_traffic parameters collision_locks output_array rng).

(** A call of the driver that returns wrote the verdict of the ego: either
    the ego was skipped (no state or no attributes), or the verdict is that
    of the loop over its candidates. *)
Lemma CollisionAvoidance_inv (out : CollisionOutput) :
  drive = Ok out →
  ∃ ego v,
    vehicle_id_list !! index = Some ego
    ∧ (index < length output_array)%nat
    ∧ out_frame out
      = <[index := mkCollisionHazardData (obstacle_id v) (verdict_margin v)
                     (collision_hazard v)]> output_array
    ∧ out_collision_locks out = verdict_locks v
    ∧ ((v = mkVerdict 0%N false Inf collision_locks rng
        ∧ (state_map !! ego = None ∨ attribute_map !! ego = None))
       ∨ ∃ ego_state ego_attributes ego_buffer target candidates,
           state_map !! ego = Some ego_state
           ∧ attribute_map !! ego = Some ego_attributes
           ∧ buffer_map !! ego = Some ego_buffer
           ∧ GetTargetWaypoint ego_buffer JUNCTION_LOOK_AHEAD = Ok target
           ∧ check_candidates state_map attribute_map tl_state_map buffer_map
               parameters ego ego_state ego_attributes (snd target)
               (GetDistanceToLeadingVehicle parameters ego) candidates
               ∅ ∅ collision_locks rng = Ok v).
Proof.
  unfold CollisionAvoidance. intros Hout.
  returned Hout as Hego. rename a into ego. apply list_at_Ok in Hego.
  returned Hout as Hv. rename a into v.
  returned Hout as Hwrite. injection Hout as <-. simpl.
  unfold write_hazard in Hwrite. returned Hwrite as Hslot.
  apply list_at_Ok, lookup_lt_Some in Hslot. injection Hwrite as <-.
  exists ego, v. repeat (split; [done|]).
  destruct (state_map !! ego) as [ego_state|] eqn:Hstate;
    [destruct (attribute_map !! ego) as [ego_attributes|] eqn:Hattr|].
  - right. returned Hv as Hbuffer. returned Hv as Htarget. returned Hv as Hfilter.
    apply map_at_Ok in Hbuffer.
    exists ego_state, ego_attributes. eauto 10.
  - left. injection Hv as <-. auto.
  - left. injection Hv as <-. auto.
Qed.

End DriverCall.

(** ** Margins and locks of a tick *)

Section Tick.

Context `{Externals}.

(** The record written for the ego when the loop committed a hazard. *)
Lemma CollisionAvoidance_committed
    (index : nat) (vehicle_id_list : list ActorId)
    (state_map : KinematicStateMap) (attribute_map : StaticAttributeMap)
    (tl_state_map : TrafficLightStateMap) (buffer_map : BufferMap)
    (track_traffic : TrackTraffic) (parameters : Parameters)
    (collision_locks : CollisionLockMap)
    (output_array : list CollisionHazardData) (rng : Rand) (out : CollisionOutput) :
  CollisionAvoidance index vehicle_id_list state_map attribute_map tl_state_map
    buffer_map track_traffic parameters collision_locks output_array rng = Ok out →
  ∃ ego record,
    vehicle_id_list !! index = Some ego
    ∧ out_frame out !! index = Some record
    ∧ (hazard record = false → available_distance_margin record = Inf)
    ∧ (hazard record = true →
       ∃ ego_state other_state ego_attributes other_attributes ego_tl_state
         ego_buffer other_buffer look_ahead_index
         geometry_cache geodesic_boundary_map locks r,
         state_map !! ego = Some ego_state
         ∧ state_map !! hazard_actor_id record = Some other_state
         ∧ attribute_map !! ego = Some ego_attributes
         ∧ attribute_map !! hazard_actor_id record = Some other_attributes
         ∧ buffer_map !! ego = Some ego_buffer
         ∧ buffer_map !! hazard_actor_id record = Some other_buffer
         ∧ NegotiateCollision ego (hazard_actor_id record)
             geometry_cache geodesic_boundary_map locks
             ego_state other_state ego_attributes other_attributes
             ego_tl_state ego_buffer other_buffer look_ahead_index
             (GetDistanceToLeadingVehicle parameters ego)
             (GetDistanceToLeadingVehicle parameters (hazard_actor_id record)) = Ok r
         ∧ neg_hazard r = true
         ∧ available_distance_margin record = neg_margin r
         ∧ out_collision_locks out = neg_collision_locks r).
Proof.
  intros Hout.
  destruct (CollisionAvoidance_inv _ _ _ _ _ _ _ _ _ _ _ _ Hout)
    as (ego & v & Hego & Hindex & Hframe & Hlocks & Hv).
  exists ego. eexists. split; [exact Hego|].
  split; [rewrite Hframe; apply list_lookup_insert_eq, Hindex|]. simpl.
  destruct Hv as [[-> _]|(ego_state & ego_attributes & ego_buffer & target
                           & candidates & Hstate & Hattr & Hbuffer & _ & Hloop)].
  - simpl. split; [reflexivity|discriminate].
  - destruct (check_candidates_verdict _ _ _ _ _ _ _ _ _ _ _ _ _ _ _ _ Hloop)
      as [Hclear Hcommitted].
    split; [exact Hclear|]. intros Hhazard.
    destruct (Hcommitted Hhazard)
      as (other_state & other_attributes & ego_tl_state & ego_buffer' & other_buffer
          & cache & boundaries & locks & r & Ho & Hoa & Htl & Hb & Hob & Hr & Hh & Hm & Hl).
    assert (ego_buffer' = ego_buffer) as -> by congruence.
    exists ego_state, other_state, ego_attributes, other_attributes, ego_tl_state,
      ego_buffer, other_buffer, (snd target), cache, boundaries, locks, r.
    rewrite Hlocks. auto 15.
Qed.


(** C3, as amended.  Each call of NegotiateCollision leaves a lock for the
    reference vehicle exactly when it returns hazard = true.  After the
    driver has finished for an ego, a record written with hazard = true
    comes with a lock of the ego on the hazard actor. *)
Theorem C3_lock_of_hazard :
  (∀ reference_vehicle_id other_actor_id geometry_cache geodesic_boundary_map
     collision_locks reference_vehicle_state other_vehicle_state
     reference_vehicle_attributes other_vehicle_attributes reference_tl_state
     reference_vehicle_buffer other_vehicle_buffer
     reference_junction_look_ahead_index
     reference_lead_distance other_lead_distance r,
     NegotiateCollision reference_vehicle_id other_actor_id
       geometry_cache geodesic_boundary_map collision_locks
       reference_vehicle_state other_vehicle_state
       reference_vehicle_attributes other_vehicle_attributes reference_tl_state
       reference_vehicle_buffer other_vehicle_buffer
       reference_junction_look_ahead_index
       reference_lead_distance other_lead_distance = Ok r →
     (is_Some (neg_collision_locks r !! reference_vehicle_id)
      ↔ neg_hazard r = true))
  ∧ (∀ index vehicle_id_list state_map attribute_map tl_state_map buffer_map
       track_traffic parameters collision_locks output_array rng out,
     CollisionAvoidance index vehicle_id_list state_map attribute_map tl_state_map
       buffer_map track_traffic parameters collision_locks output_array rng
     = Ok out →
     ∃ ego record,
       vehicle_id_list !! index = Some ego
       ∧ out_frame out !! index = Some record
       ∧ (hazard record = true →
          ∃ lock, out_collision_locks out !! ego = Some lock
                  ∧ lead_vehicle_id lock = hazard_actor_id record)).
Proof.
  split.
  - intros. eapply NegotiateCollision_lock; eassumption.
  - intros index ids sm am tlm bm tt params locks0 output rng out Hout.
    destruct (CollisionAvoidance_committed _ _ _ _ _ _ _ _ _ _ _ _ Hout)
      as (ego & record & Hego & Hrecord & _ & Hcommitted).
    exists ego, record. repeat (split; [assumption|]).
    intros Hhazard.
    destruct (Hcommitted Hhazard)
      as (es & os & ea & oa & tl & eb & ob & look & cache & boundaries & locks & r
          & _ & _ & _ & _ & _ & _ & Hr & Hh & _ & Hl).
    destruct (NegotiateCollision_lock _ _ _ _ _ _ _ _ _ _ _ _ _ _ _ r Hr)
      as [_ Hlock].
    rewrite Hl. exact (Hlock Hh).
Qed.

End Tick.

(** ** The boundary walk *)

Section Boundary.

Context `{Externals}.

(** The walk returns and only appends ribs, as many on the left as on the
    right. *)
Lemma boundary_walk_appends (waypoint_buffer : Buffer)
    (boundary_start : SimpleWaypoint) (bbox_extension_square width : Q) (n : nat) :
  ∀ j boundary_end current_point left_boundary right_boundary,
    (n + j)%nat = length waypoint_buffer →
    ∃ left_ribs right_ribs,
      boundary_walk n j waypoint_buffer boundary_start bbox_extension_square width
        boundary_end current_point left_boundary right_boundary
      = Ok (left_boundary ++ left_ribs, right_boundary ++ right_ribs)
      ∧ length left_ribs = length right_ribs.
Proof.
  induction n as [|n IH]; intros j boundary_end cp left right Hsize;
    cbn [boundary_walk].
  - exists [], []. rewrite !app_nil_r. auto.
  - destruct (lookup_lt_is_Some_2 waypoint_buffer j) as [cp' Hcp']; [lia|].
    unfold list_at. rewrite Hcp'. unfold mbind, result_bind.
    set (reached := Qgtb _ _ || _).
    set (emit := _ || reached).
    destruct emit.
    + destruct reached.
      * exists [fst (rib cp width)], [snd (rib cp width)]. auto.
      * destruct (IH (S j) (Some cp) cp' (left ++ [fst (rib cp width)])
                    (right ++ [snd (rib cp width)])) as (l & r & -> & Hlen); [lia|].
        exists (fst (rib cp width) :: l), (snd (rib cp width) :: r).
        rewrite <- !app_assoc. simpl. auto.
    + destruct reached.
      * exists [], []. rewrite !app_nil_r. auto.
      * apply IH. lia.
Qed.

(** Entered without a previous rib and with an index inside the buffer, the
    walk emits its first rib at the current point. *)
Lemma boundary_walk_first_rib (waypoint_buffer : Buffer)
    (boundary_start : SimpleWaypoint) (bbox_extension_square width : Q)
    (j : nat) (current_point : SimpleWaypoint) :
  (j < length waypoint_buffer)%nat →
  ∃ left_ribs right_ribs,
    boundary_walk (length waypoint_buffer - j) j waypoint_buffer boundary_start
      bbox_extension_square width None current_point [] []
    = Ok (fst (rib current_point width) :: left_ribs,
          snd (rib current_point width) :: right_ribs).
Proof.
  intros Hj.
  destruct (length waypoint_buffer - j)%nat as [|n] eqn:Hn; [lia|].
  cbn [boundary_walk].
  destruct (lookup_lt_is_Some_2 waypoint_buffer j Hj) as [cp' Hcp'].
  unfold list_at. rewrite Hcp'. unfold mbind, result_bind.
  cbn [orb app]. destruct (Qgtb _ _ || _).
  - exists [], []. reflexivity.
  - destruct (boundary_walk_appends waypoint_buffer boundary_start
                bbox_extension_square width n (S j) (Some current_point) cp'
                [fst (rib current_point width)] [snd (rib current_point width)])
      as (l & r & -> & _); [lia|].
    exists l, r. reflexivity.
Qed.

(** GetPolygon reads the first element: it returns a ring for a boundary
    that is not empty. *)
Lemma GetPolygon_nonempty (boundary : LocationList) :
  boundary ≠ [] → ∃ ring, GetPolygon boundary = Ok ring ∧ ring ≠ [].
Proof.
  destruct boundary as [|first rest]; [congruence|]. intros _.
  eexists. split; [reflexivity|discriminate].
Qed.

(** C9. For a vehicle whose buffer is not empty and whose start index lies
    in the buffer, the boundary walk emits a rib (a left and a right point)
    at the waypoint of index boundary_start_index; the boundary that
    GetGeodesicBoundary returns is not empty, and GetPolygon, which reads
    its first element, returns a ring. *)
Theorem C9_first_rib (actor_id : ActorId) (geodesic_boundary_map : GeodesicBoundaryMap)
    (kinematic_state : KinematicState) (attributes : StaticAttributes)
    (waypoint_buffer : Buffer) (specific_lead_distance : Q)
    (collision_lock_map : CollisionLockMap)
    (boundary_start : SimpleWaypoint) (boundary_start_index : nat) :
  actor_type attributes = Vehicle →
  waypoint_buffer ≠ [] →
  GetTargetWaypoint waypoint_buffer (half_length attributes)
    = Ok (boundary_start, boundary_start_index) →
  (boundary_start_index < length waypoint_buffer)%nat →
  geodesic_boundary_map !! actor_id = None →
  ∃ current_point left_ribs right_ribs boundary ring,
    waypoint_buffer !! boundary_start_index = Some current_point
    ∧ geodesic_ribs actor_id kinematic_state attributes waypoint_buffer
        specific_lead_distance collision_lock_map
      = Ok (fst (rib current_point (half_width attributes)) :: left_ribs,
            snd (rib current_point (half_width attributes)) :: right_ribs)
    ∧ GetGeodesicBoundary actor_id geodesic_boundary_map kinematic_state attributes
        waypoint_buffer specific_lead_distance collision_lock_map
      = Ok (boundary, <[actor_id := boundary]> geodesic_boundary_map)
    ∧ boundary
      = rev (snd (rib current_point (half_width attributes)) :: right_ribs)
        ++ GetBoundary kinematic_state attributes
        ++ fst (rib current_point (half_width attributes)) :: left_ribs
    ∧ boundary ≠ []
    ∧ GetPolygon boundary = Ok ring
    ∧ ring ≠ [].
Proof.
  intros Hvehicle _ Htarget Hindex Hmiss.
  destruct (lookup_lt_is_Some_2 waypoint_buffer boundary_start_index Hindex)
    as [cp Hcp].
  destruct (boundary_walk_first_rib waypoint_buffer boundary_start
              (SQUARE (MAX specific_lead_distance
                         (GetBoundingBoxExtention actor_id kinematic_state
                            collision_lock_map)))
              (half_width attributes) boundary_start_index cp Hindex)
    as (l & r & Hwalk).
  assert (geodesic_ribs actor_id kinematic_state attributes waypoint_buffer
            specific_lead_distance collision_lock_map
          = Ok (fst (rib cp (half_width attributes)) :: l,
                snd (rib cp (half_width attributes)) :: r)) as Hribs.
  { unfold geodesic_ribs. rewrite Htarget. unfold mbind, result_bind. simpl.
    unfold list_at. rewrite Hcp. exact Hwalk. }
  set (boundary := rev (snd (rib cp (half_width attributes)) :: r)
                   ++ GetBoundary kinematic_state attributes
                   ++ fst (rib cp (half_width attributes)) :: l).
  assert (boundary ≠ []) as Hne.
  { unfold boundary. intros E. apply app_eq_nil in E as [_ E].
    apply app_eq_nil in E as [_ E]. discriminate. }
  destruct (GetPolygon_nonempty boundary Hne) as (ring & Hring & Hringne).
  exists cp, l, r, boundary, ring.
  split; [exact Hcp|]. split; [exact Hribs|]. split; [|auto].
  unfold GetGeodesicBoundary, map_insert. rewrite Hmiss.
  destruct (decide (actor_type attributes = Vehicle)) as [_|Hn]; [|contradiction].
  rewrite Hribs. reflexivity.
Qed.

End Boundary.

(** ** The motion planner *)

Section Planner.

Context `{Externals}.

Lemma record_teleportation_lookup (actor_id other : ActorId)
    (teleportation_instance : TeleportationMap) (clock : Clock) (instant : Q) :
  teleportation_instance !! other = Some instant →
  fst (record_teleportation actor_id teleportation_instance clock) !! other
  = Some instant.
Proof.
  intros Hother. unfold record_teleportation, map_insert.
  destruct (teleportation_instance !! actor_id) eqn:Hactor; simpl; [exact Hother|].
  rewrite lookup_insert_ne; [exact Hother|congruence].
Qed.

Lemma record_teleportation_present (actor_id : ActorId)
    (teleportation_instance : TeleportationMap) (clock : Clock) (instant : Q) :
  teleportation_instance !! actor_id = Some instant →
  record_teleportation actor_id teleportation_instance clock
  = (teleportation_instance, clock).
Proof. intros Hactor. unfold record_teleportation. rewrite Hactor. reflexivity. Qed.

(** The branch without physics that returns: the state is flushed, and the
    teleportation table only gains the entry of the actor when it had
    none. *)
Lemma teleport_branch_inv (parameters : Parameters) (actor_id : ActorId)
    (kinematic_state : KinematicState) (waypoint_buffer : Buffer)
    (dynamic_target_velocity current_time : Q) (emergency_stop : bool)
    (teleportation_instance : TeleportationMap) (clock : Clock) (a : Actuation) :
  teleport_branch parameters actor_id kinematic_state waypoint_buffer
    dynamic_target_velocity current_time emergency_stop teleportation_instance clock
  = Ok a →
  deviation_integral (act_state a) = 0
  ∧ velocity_integral (act_state a) = 0
  ∧ act_teleportation_instance a
    = fst (record_teleportation actor_id teleportation_instance (snd (now clock)))
  ∧ ∃ instant,
      act_teleportation_instance a !! actor_id = Some instant
      ∧ (if negb emergency_stop
            && (GetSynchronousMode parameters
                || Qgtb (current_time - instant) HYBRID_MODE_DT)
         then teleport_target waypoint_buffer (location kinematic_state)
                dynamic_target_velocity
         else Ok (mkTransform (location kinematic_state) (rotation kinematic_state)))
        = Ok (act_transform a).
Proof.
  unfold teleport_branch. cbv zeta. intros Ha.
  returned Ha as Hinstant. rename a0 into instant. apply map_at_Ok in Hinstant.
  returned Ha as Htransform. injection Ha as <-. simpl.
  repeat (split; [reflexivity|]). exists instant. auto.
Qed.

Lemma pid_branch_emergency (previous_state : StateEntry)
    (ego_speed dynamic_target_velocity current_deviation current_time : Q)
    (longitudinal_parameters lateral_parameters : list Q)
    (teleportation_instance : TeleportationMap) (clock : Clock) :
  let a := pid_branch previous_state ego_speed dynamic_target_velocity
             current_deviation current_time longitudinal_parameters
             lateral_parameters true teleportation_instance clock in
  deviation_integral (act_state a) = 0
  ∧ velocity_integral (act_state a) = 0
  ∧ throttle (act_signal a) = 0
  ∧ brake (act_signal a) = 1.
Proof. unfold pid_branch. simpl. auto. Qed.

(** The resolver asks for an emergency stop at a traffic light hazard and
    at a collision hazard whose margin is below the critical one. *)
Lemma target_resolver_emergency (state_map : KinematicStateMap)
    (attribute_map : StaticAttributeMap) (parameters : Parameters)
    (actor_id : ActorId) (ego_velocity ego_heading : Vector3D)
    (collision_hazard : CollisionHazardData) (tl_hazard : bool)
    (resolved : Q * bool) :
  target_resolver state_map attribute_map parameters actor_id ego_velocity
    ego_heading collision_hazard tl_hazard = Ok resolved →
  tl_hazard = true
  ∨ (hazard collision_hazard = true
     ∧ efloat_ltb (available_distance_margin collision_hazard)
         CRITICAL_BRAKING_MARGIN = true) →
  snd resolved = true.
Proof.
  unfold target_resolver. cbv zeta. intros Hr Hcause.
  returned Hr as Hattributes. returned Hr as Hresponse. injection Hr as <-. simpl.
  destruct Hcause as [->|[Hhazard Hmargin]]; [reflexivity|].
  unfold collision_response in Hresponse. rewrite Hhazard in Hresponse.
  cbv zeta in Hresponse. returned Hresponse as Hother.
  rewrite Hmargin in Hresponse.
  destruct (if Qgtb _ _ then _ else _) as [v stop] in Hresponse.
  injection Hresponse as <-. simpl. apply orb_true_r.
Qed.

Lemma initialize_state_entry_clock (actor_id : ActorId)
    (pid_state_map : PidStateMap) (clock : Clock) :
  let clock1 := snd (initialize_state_entry actor_id pid_state_map clock) in
  clock_values clock1 = clock_values clock
  ∧ (clock_calls clock ≤ clock_calls clock1)%nat.
Proof.
  unfold initialize_state_entry. destruct (pid_state_map !! actor_id); simpl; auto.
Qed.

Section PlannerCall.

Variable index : nat.
Variable vehicle_id_list : list ActorId.
Variable state_map : KinematicStateMap.
Variable attribute_map : StaticAttributeMap.
Variable parameters : Parameters.
Variable buffer_map : BufferMap.
Variables urban_longitudinal_parameters highway_longitudinal_parameters : list Q.
Variables urban_lateral_parameters highway_lateral_parameters : list Q.
Variable collision_frame : list CollisionHazardData.
Variable tl_frame : list bool.
Variable pid_state_map : PidStateMap.
Variable teleportation_instance : TeleportationMap.
Variable output_array : list Command.
Variable clock : Clock.

Local Abbreviation plan :=
  (MotionPlan index vehicle_id_list state_map attribute_map parameters buffer_map
     urban_longitudinal_parameters highway_longitudinal_parameters
     urban_lateral_parameters highway_lateral_parameters
     collision_frame tl_frame pid_state_map teleportation_instance
     output_array clock).

(** A call of the planner that returns: what it read, the branch it took
    and what it left in the tables and in the control frame. *)
Lemma MotionPlan_inv (out : MotionOutput) :
  plan = Ok out →
  ∃ actor_id kinematic_state waypoint_buffer collision_hazard tl_hazard
    resolved actuation,
    vehicle_id_list !! index = Some actor_id
    ∧ state_map !! actor_id = Some kinematic_state
    ∧ buffer_map !! actor_id = Some waypoint_buffer
    ∧ collision_frame !! index = Some collision_hazard
    ∧ tl_frame !! index = Some tl_hazard
    ∧ target_resolver state_map attribute_map parameters actor_id
        (velocity kinematic_state) (GetForwardVector (rotation kinematic_state))
        collision_hazard tl_hazard = Ok resolved
    ∧ (index < length output_array)%nat
    ∧ (let clock1 := snd (initialize_state_entry actor_id pid_state_map clock) in
       if physics_enabled kinematic_state
       then ∃ previous_state current_deviation longitudinal lateral,
              actuation
              = pid_branch previous_state (Length (velocity kinematic_state))
                  (fst resolved) current_deviation (fst (now clock1))
                  longitudinal lateral (snd resolved)
                  teleportation_instance (snd (now clock1))
       else teleport_branch parameters actor_id kinematic_state waypoint_buffer
              (fst resolved) (fst (now clock1)) (snd resolved)
              teleportation_instance (snd (now clock1)) = Ok actuation)
    ∧ out_pid_state_map out
      = <[actor_id := act_state actuation]>
          (fst (initialize_state_entry actor_id pid_state_map clock))
    ∧ out_teleportation_instance out = act_teleportation_instance actuation
    ∧ out_control_frame out
      = <[index :=
            if physics_enabled kinematic_state
            then ApplyVehicleControl actor_id
                   (mkVehicleControl (throttle (act_signal actuation))
                      (steer (act_signal actuation)) (brake (act_signal actuation)))
            else ApplyTransform actor_id (act_transform actuation)]> output_array.
Proof.
  unfold MotionPlan. cbv zeta. intros Hout.
  returned Hout as Hactor. rename a into actor_id. apply list_at_Ok in Hactor.
  returned Hout as Hstate. rename a into kinematic_state. apply map_at_Ok in Hstate.
  returned Hout as Hbuffer. rename a into waypoint_buffer. apply map_at_Ok in Hbuffer.
  returned Hout as Hhazard. rename a into collision_hazard. apply list_at_Ok in Hhazard.
  returned Hout as Htl. rename a into tl_hazard. apply list_at_Ok in Htl.
  returned Hout as Htarget. rename a into target.
  returned Hout as Hprevious. rename a into previous_state.
  returned Hout as Hresolved. rename a into resolved.
  returned Hout as Hactuation. rename a into actuation.
  returned Hout as Hslot.
  apply list_at_Ok, lookup_lt_Some in Hslot. injection Hout as <-. simpl.
  exists actor_id, kinematic_state, waypoint_buffer, collision_hazard, tl_hazard,
    resolved, actuation.
  repeat (split; [assumption || reflexivity|]).
  split; [|auto].
  destruct (physics_enabled kinematic_state).
  - injection Hactuation as <-. eauto.
  - exact Hactuation.
Qed.

(** A call of the planner leaves the teleportation instants it finds. *)
Lemma MotionPlan_keeps_instant (out : MotionOutput) (actor : ActorId) (instant : Q) :
  plan = Ok out →
  teleportation_instance !! actor = Some instant →
  out_teleportation_instance out !! actor = Some instant.
Proof.
  intros Hout Hinstant.
  destruct (MotionPlan_inv out Hout)
    as (actor_id & ks & buf & ch & tlh & resolved & a & _ & _ & _ & _ & _ & _ & _
        & Hbranch & _ & -> & _).
  cbv zeta in Hbranch. destruct (physics_enabled ks).
  - destruct Hbranch as (prev & dev & lon & lat & ->).
    unfold pid_branch. destruct (snd resolved); exact Hinstant.
  - apply teleport_branch_inv in Hbranch as (_ & _ & -> & _).
    apply record_teleportation_lookup, Hinstant.
Qed.

(** C7, as amended.  On a hazard record as CollisionAvoidance writes it
    (the margin is +infinity when hazard = false), if tl_hazard is true or
    the margin is below CRITICAL_BRAKING_MARGIN, then the StateEntry
    persisted for the ego has both integrals at 0; with physics enabled
    the command issued is ApplyVehicleControl with brake = 1 and
    throttle = 0; with physics disabled it is ApplyTransform at the
    location and rotation the ego has. *)
Theorem C7_emergency_stop (out : MotionOutput) (actor_id : ActorId)
    (kinematic_state : KinematicState) (collision_hazard : CollisionHazardData)
    (tl_hazard : bool) :
  plan = Ok out →
  vehicle_id_list !! index = Some actor_id →
  state_map !! actor_id = Some kinematic_state →
  collision_frame !! index = Some collision_hazard →
  tl_frame !! index = Some tl_hazard →
  (hazard collision_hazard = false →
   available_distance_margin collision_hazard = Inf) →
  tl_hazard = true
  ∨ efloat_ltb (available_distance_margin collision_hazard)
      CRITICAL_BRAKING_MARGIN = true →
  (∃ entry, out_pid_state_map out !! actor_id = Some entry
            ∧ deviation_integral entry = 0
            ∧ velocity_integral entry = 0)
  ∧ (if physics_enabled kinematic_state
     then ∃ control,
            out_control_frame out !! index = Some (ApplyVehicleControl actor_id control)
            ∧ vc_brake control = 1
            ∧ vc_throttle control = 0
     else out_control_frame out !! index
          = Some (ApplyTransform actor_id
                    (mkTransform (location kinematic_state)
                       (rotation kinematic_state)))).
Proof.
  intros Hout Hactor Hstate Hhazard Htl Hwritten Hcause.
  destruct (MotionPlan_inv out Hout)
    as (actor' & ks & buf & ch & tlh & resolved & a & Ha & Hs & _ & Hc & Ht
        & Hresolved & Hindex & Hbranch & -> & _ & ->).
  assert (actor' = actor_id) as -> by congruence.
  assert (ks = kinematic_state) as -> by congruence.
  assert (ch = collision_hazard) as -> by congruence.
  assert (tlh = tl_hazard) as -> by congruence.
  assert (snd resolved = true) as Hstop.
  { eapply target_resolver_emergency; [exact Hresolved|].
    destruct Hcause as [->|Hmargin]; [auto|]. right. split; [|exact Hmargin].
    destruct (hazard collision_hazard); [reflexivity|].
    rewrite Hwritten in Hmargin by reflexivity. discriminate. }
  rewrite lookup_insert_eq, list_lookup_insert_eq by exact Hindex.
  cbv zeta in Hbranch. destruct (physics_enabled kinematic_state).
  - destruct Hbranch as (prev & dev & lon & lat & ->). rewrite Hstop.
    split; [eexists; split; [reflexivity|]; simpl; auto|].
    eexists. split; [reflexivity|]. simpl. auto.
  - pose proof (teleport_branch_inv _ _ _ _ _ _ _ _ _ _ Hbranch)
      as (Hdi & Hvi & _ & instant & _ & Htransform).
    rewrite Hstop in Htransform. simpl in Htransform.
    injection Htransform as <-. eauto.
Qed.

(** Without emergency stop and in asynchronous mode, a call for an ego
    without physics whose teleportation instant lies more than
    HYBRID_MODE_DT before every instant the clock returns during the call
    issues the pose of the teleport branch. *)
Lemma MotionPlan_teleports (out : MotionOutput) (actor_id : ActorId)
    (kinematic_state : KinematicState) (waypoint_buffer : Buffer)
    (collision_hazard : CollisionHazardData) (tl_hazard : bool)
    (instant dynamic_target_velocity : Q) :
  plan = Ok out →
  vehicle_id_list !! index = Some actor_id →
  state_map !! actor_id = Some kinematic_state →
  buffer_map !! actor_id = Some waypoint_buffer →
  collision_frame !! index = Some collision_hazard →
  tl_frame !! index = Some tl_hazard →
  physics_enabled kinematic_state = false →
  teleportation_instance !! actor_id = Some instant →
  target_resolver state_map attribute_map parameters actor_id
    (velocity kinematic_state) (GetForwardVector (rotation kinematic_state))
    collision_hazard tl_hazard = Ok (dynamic_target_velocity, false) →
  GetSynchronousMode parameters = false →
  (∀ n, (clock_calls clock ≤ n)%nat →
        instant + HYBRID_MODE_DT < clock_values clock n) →
  ∃ pose,
    teleport_target waypoint_buffer (location kinematic_state)
      dynamic_target_velocity = Ok pose
    ∧ out_control_frame out !! index = Some (ApplyTransform actor_id pose).
Proof.
  intros Hout Hactor Hstate Hbuffer Hhazard Htl Hphysics Hinstant Hresolved
    Hasync Hlate.
  destruct (MotionPlan_inv out Hout)
    as (actor' & ks & buf & ch & tlh & resolved & a & Ha & Hs & Hb & Hc & Ht
        & Hresolved' & Hindex & Hbranch & _ & _ & ->).
  assert (actor' = actor_id) as -> by congruence.
  assert (ks = kinematic_state) as -> by congruence.
  assert (buf = waypoint_buffer) as -> by congruence.
  assert (ch = collision_hazard) as -> by congruence.
  assert (tlh = tl_hazard) as -> by congruence.
  assert (resolved = (dynamic_target_velocity, false)) as -> by congruence.
  rewrite list_lookup_insert_eq by exact Hindex.
  cbv zeta in Hbranch. rewrite Hphysics in Hbranch |- *.
  pose proof (teleport_branch_inv _ _ _ _ _ _ _ _ _ _ Hbranch)
    as (_ & _ & Htable & instant' & Hinstant' & Htransform).
  rewrite Htable, (record_teleportation_present _ _ _ _ Hinstant) in Hinstant'.
  simpl in Hinstant'. assert (instant' = instant) as -> by congruence.
  destruct (initialize_state_entry_clock actor_id pid_state_map clock)
    as [Hvalues Hcalls].
  assert (Qgtb (fst (now (snd (initialize_state_entry actor_id pid_state_map clock)))
                - instant) HYBRID_MODE_DT = true) as Helapsed.
  { apply Qgtb_gt. unfold now. simpl. rewrite Hvalues.
    specialize (Hlate _ Hcalls). lra. }
  rewrite Hasync, Helapsed in Htransform. simpl in Htransform.
  eauto.
Qed.

End PlannerCall.

(** C10. An entry of the teleportation table, once inserted, is left as it
    is by every later call of MotionPlan, for any ego: the elapsed time of
    a call is measured from the instant of the first call without physics.
    In asynchronous mode and without emergency stop, a call for an ego
    without physics whose entry lies more than HYBRID_MODE_DT before the
    instants of the call takes the teleport branch. *)
Theorem C10_teleportation_instant_kept :
  (∀ (calls : list MotionCall) (before after : MotionOutput)
     (actor_id : ActorId) (instant : Q),
     MotionPlan_calls calls before = Ok after →
     out_teleportation_instance before !! actor_id = Some instant →
     out_teleportation_instance after !! actor_id = Some instant)
  ∧ (∀ (call : MotionCall) (before after : MotionOutput) (actor_id : ActorId)
       (kinematic_state : KinematicState) (waypoint_buffer : Buffer)
       (collision_hazard : CollisionHazardData) (tl_hazard : bool)
       (instant dynamic_target_velocity : Q),
     MotionPlan_call call before = Ok after →
     call_vehicle_id_list call !! call_index call = Some actor_id →
     call_state_map call !! actor_id = Some kinematic_state →
     call_buffer_map call !! actor_id = Some waypoint_buffer →
     call_collision_frame call !! call_index call = Some collision_hazard →
     call_tl_frame call !! call_index call = Some tl_hazard →
     physics_enabled kinematic_state = false →
     out_teleportation_instance before !! actor_id = Some instant →
     target_resolver (call_state_map call) (call_attribute_map call)
       (call_parameters call) actor_id (velocity kinematic_state)
       (GetForwardVector (rotation kinematic_state)) collision_hazard tl_hazard
     = Ok (dynamic_target_velocity, false) →
     GetSynchronousMode (call_parameters call) = false →
     (∀ n, (clock_calls (out_clock before) ≤ n)%nat →
           instant + HYBRID_MODE_DT < clock_values (out_clock before) n) →
     ∃ pose,
       teleport_target waypoint_buffer (location kinematic_state)
         dynamic_target_velocity = Ok pose
       ∧ out_control_frame after !! call_index call
         = Some (ApplyTransform actor_id pose)).
Proof.
  split.
  - induction calls as [|call calls IH]; intros before after actor_id instant
      Hrun Hinstant; simpl in Hrun.
    + injection Hrun as <-. exact Hinstant.
    + returned Hrun as Hcall. rename a into middle.
      apply (IH middle after actor_id instant Hrun).
      unfold MotionPlan_call in Hcall.
      eapply MotionPlan_keeps_instant; eassumption.
  - intros call before after. intros. unfold MotionPlan_call in *.
    eapply MotionPlan_teleports; eassumption.
Qed.

End Planner.

(** ** Runs on the scenario *)

Section Runs.

Import Scenario.

(** The local [other_heading] never reads the rotation of the other
    vehicle: the angular priority is the same whatever that rotation is. *)
Lemma ego_angular_priority_ignores_other_rotation `{Externals}
    (reference_vehicle_state other_vehicle_state : KinematicState) (r : Rotation) :
  ego_angular_priority reference_vehicle_state
    (mkKinematicState (location other_vehicle_state) r
       (velocity other_vehicle_state) (physics_enabled other_vehicle_state))
  = ego_angular_priority reference_vehicle_state other_vehicle_state.
Proof. reflexivity. Qed.

(** The hazard rule depends on the angular priority through its truth
    only. *)
Lemma hazard_rule_iff `{Externals} (g : GeometryComparison) (P Q : Prop) :
  (P ↔ Q) → (Spec.hazard_rule g P ↔ Spec.hazard_rule g Q).
Proof. unfold Spec.hazard_rule. tauto. Qed.

(** C1.  Code against claim: a short ego at the origin heads along x at
    10 m/s, and a longer actor at (10, 11) heads down the road x = 10
    towards the corridor of the ego.  The pair passes the gate; the
    corridors touch, the bodies do not, both paths are clear (8 m and
    7.7 m) and the ego has no path priority.  The angular priority of the
    specification holds (0.673 < 0.740), so the rule of the specification
    declares no hazard; the code, whose [other_heading] is the heading of
    the reference vehicle, finds no angular priority and returns
    hazard = true. *)
Theorem C1_hazard_against_spec_rule :
  ∃ g cache boundaries r,
    Spec.proceed_to_geometry ego lead ∅ ego_state crossing_actor short_car car
      green (road_waypoint 0) (road_waypoint 10)
    ∧ GetGeometryBetweenActors ∅ ∅ ego lead ego_state crossing_actor short_car car
        (road 0 31) (crossing_road 11 31) ∅ 1 1 = Ok (g, cache, boundaries)
    ∧ reference_vehicle_to_other_geodesic g = 8
    ∧ other_vehicle_to_reference_geodesic g = 77 # 10
    ∧ inter_geodesic_distance g = 0
    ∧ NegotiateCollision ego lead ∅ ∅ ∅ ego_state crossing_actor short_car car
        green (road 0 31) (crossing_road 11 31) 10 1 1 = Ok r
    ∧ neg_hazard r = true
    ∧ Spec.ego_angular_priority ego_state crossing_actor
    ∧ ¬ Spec.hazard_rule g (Spec.ego_angular_priority ego_state crossing_actor).
Proof.
  assert (Spec.ego_angular_priority ego_state crossing_actor) as Hangular
    by (vm_compute; reflexivity).
  eexists. eexists. eexists. eexists.
  split; [apply negotiation_gate_spec; vm_compute; reflexivity|].
  split; [vm_compute; reflexivity|].
  split; [vm_compute; reflexivity|].
  split; [vm_compute; reflexivity|].
  split; [vm_compute; reflexivity|].
  split; [vm_compute; reflexivity|].
  split; [vm_compute; reflexivity|].
  split; [exact Hangular|].
  intros Hrule.
  apply (hazard_rule_iff _ _ (true = true)) in Hrule; [|tauto].
  apply negotiation_hazard_spec in Hrule. vm_compute in Hrule. discriminate.
Qed.

(** C2.  Code against claim: with the ego at the origin heading along x and
    the other actor ten metres to its left heading towards it, the
    angular priority of the specification,
    dot(ref.fwd, unit(other − ref)) < dot(other.fwd, unit(ref − other)),
    holds (0 < 1), and the code, which takes [other_heading] from the
    rotation of the reference vehicle, computes false (0 < 0). *)
Theorem C2_other_heading_is_reference_heading :
  Spec.ego_angular_priority ego_state crossing_state
  ∧ ego_angular_priority ego_state crossing_state = false.
Proof. split; vm_compute; reflexivity. Qed.

(** A query whose key is in the cache returns the cached comparison with
    the two geodesic fields swapped, whatever the order of the pair. *)
Lemma GetGeometryBetweenActors_hit `{Externals}
    (geometry_cache : GeometryComparisonMap)
    (geodesic_boundary_map : GeodesicBoundaryMap)
    (reference_vehicle_id other_actor_id : ActorId)
    (reference_vehicle_state other_vehicle_state : KinematicState)
    (reference_vehicle_attributes other_vehicle_attributes : StaticAttributes)
    (reference_vehicle_buffer other_vehicle_buffer : Buffer)
    (collision_lock_map : CollisionLockMap)
    (reference_lead_distance other_lead_distance : Q) (m : GeometryComparison) :
  geometry_cache !! actor_id_key reference_vehicle_id other_actor_id = Some m →
  GetGeometryBetweenActors geometry_cache geodesic_boundary_map
    reference_vehicle_id other_actor_id
    reference_vehicle_state other_vehicle_state
    reference_vehicle_attributes other_vehicle_attributes
    reference_vehicle_buffer other_vehicle_buffer
    collision_lock_map reference_lead_distance other_lead_distance
  = Ok (swap_geodesic m, geometry_cache, geodesic_boundary_map).
Proof. intros Hkey. unfold GetGeometryBetweenActors. rewrite Hkey. reflexivity. Qed.

(** C4.  Code against claim: on one cache, the first query of the follower
    and its lead, (1, 2), returns (15.4, 0, 0, 15.4) and stores it under
    "1|2".  On that cache the same query returns the swapped
    (0, 15.4, 0, 15.4), and the reversed query (2, 1), whose key is "1|1",
    misses and returns (0, 15.4, 0, 15.4) too: the two orders return the
    same fields, not swapped ones. *)
Theorem C4_same_order_hit_swaps :
  ∃ cache boundaries cache',
    GetGeometryBetweenActors ∅ ∅ ego lead ego_state lead_state car car
      (road 0 31) (road 20 31) ∅ 1 1
    = Ok (follower_geometry, cache, boundaries)
    ∧ cache !! "1|2"%string = Some follower_geometry
    ∧ GetGeometryBetweenActors cache boundaries ego lead ego_state lead_state car car
        (road 0 31) (road 20 31) ∅ 1 1
      = Ok (swap_geodesic follower_geometry, cache, boundaries)
    ∧ GetGeometryBetweenActors cache boundaries lead ego lead_state ego_state car car
        (road 20 31) (road 0 31) ∅ 1 1
      = Ok (swap_geodesic follower_geometry, cache', boundaries)
    ∧ cache' !! "1|1"%string = Some (swap_geodesic follower_geometry)
    ∧ swap_geodesic follower_geometry ≠ follower_geometry.
Proof.
  eexists. eexists. eexists.
  split; [vm_compute; reflexivity|].
  split; [vm_compute; reflexivity|].
  split; [vm_compute; reflexivity|].
  split; [vm_compute; reflexivity|].
  split; [vm_compute; reflexivity|].
  discriminate.
Qed.

(** An ego with state and attributes and without buffer makes the driver
    fail: the buffer is read with [at] before the loop. *)
Lemma CollisionAvoidance_missing_buffer `{Externals}
    (index : nat) (vehicle_id_list : list ActorId)
    (state_map : KinematicStateMap) (attribute_map : StaticAttributeMap)
    (tl_state_map : TrafficLightStateMap) (buffer_map : BufferMap)
    (track_traffic : TrackTraffic) (parameters : Parameters)
    (collision_locks : CollisionLockMap)
    (output_array : list CollisionHazardData) (rng : Rand) (ego : ActorId) :
  vehicle_id_list !! index = Some ego →
  is_Some (state_map !! ego) →
  is_Some (attribute_map !! ego) →
  buffer_map !! ego = None →
  CollisionAvoidance index vehicle_id_list state_map attribute_map tl_state_map
    buffer_map track_traffic parameters collision_locks output_array rng
  = Raise out_of_range.
Proof.
  intros Hego [s Hs] [a Ha] Hbuffer. unfold CollisionAvoidance.
  unfold list_at at 1. rewrite Hego. unfold mbind, result_bind. cbv beta iota.
  rewrite Hs, Ha, (map_at_None _ _ Hbuffer). reflexivity.
Qed.

(** C8.  Code against claim: the follower is in the state, attribute and
    traffic light maps and not in the buffer map; the driver ends with
    [std::out_of_range] and writes no record. *)
Theorem C8_missing_buffer_raises :
  CollisionAvoidance 0 [ego; lead] state_map attribute_map tl_state_map
    (delete ego buffer_map) track_traffic (parameters 0) ∅
    [no_hazard; no_hazard] zeros
  = Raise out_of_range.
Proof.
  apply (CollisionAvoidance_missing_buffer _ _ _ _ _ _ _ _ _ _ _ ego).
  - reflexivity.
  - vm_compute. eauto.
  - vm_compute. eauto.
  - apply lookup_delete_eq.
Qed.

(** C3, as stated, fails: every vehicle hazard is ignored (100 percent),
    the negotiation of the lead finds a hazard and creates the lock, the
    draw suppresses the hazard, and the record is written with
    hazard = false while the lock of the follower remains. *)
Lemma C3_lock_without_hazard :
  ¬ (∀ out record,
       CollisionAvoidance 0 [ego; lead] state_map attribute_map tl_state_map
         buffer_map track_traffic (parameters 100) ∅ [no_hazard; no_hazard] zeros
       = Ok out →
       out_frame out !! 0%nat = Some record →
       (is_Some (out_collision_locks out !! ego) ↔ hazard record = true)).
Proof.
  intros Hclaim.
  destruct (CollisionAvoidance 0 [ego; lead] state_map attribute_map tl_state_map
              buffer_map track_traffic (parameters 100) ∅ [no_hazard; no_hazard] zeros)
    as [out|e] eqn:Hrun; vm_compute in Hrun; [|discriminate].
  injection Hrun as <-.
  destruct (Hclaim _ no_hazard eq_refl eq_refl) as [Hlock _].
  assert (hazard no_hazard = true) as Habsurd; [|discriminate].
  apply Hlock. vm_compute. eauto.
Qed.

(** C7, as stated, fails twice.  For the follower without physics and a
    traffic light hazard, the command issued is ApplyTransform, not a
    control with brake = 1.  For the follower with physics and a record
    with hazard = false and margin 0, the margin is not read and the
    control issued has brake = 0. *)
Lemma C7_no_brake :
  ¬ (∀ after,
       MotionPlan_call (plan_call ghost_state no_hazard true) (plan_start ∅)
       = Ok after →
       ∃ control,
         out_control_frame after !! 0%nat = Some (ApplyVehicleControl ego control)
         ∧ vc_brake control = 1 ∧ vc_throttle control = 0)
  ∧ ¬ (∀ after,
         MotionPlan_call (plan_call ego_state stale_record false) (plan_start ∅)
         = Ok after →
         ∃ control,
           out_control_frame after !! 0%nat = Some (ApplyVehicleControl ego control)
           ∧ vc_brake control = 1 ∧ vc_throttle control = 0).
Proof.
  split; intros Hclaim.
  - destruct (MotionPlan_call (plan_call ghost_state no_hazard true) (plan_start ∅))
      as [after|e] eqn:Hrun; vm_compute in Hrun; [|discriminate].
    injection Hrun as <-.
    destruct (Hclaim _ eq_refl) as (control & Hcommand & _). discriminate.
  - destruct (MotionPlan_call (plan_call ego_state stale_record false) (plan_start ∅))
      as [after|e] eqn:Hrun; vm_compute in Hrun; [|discriminate].
    injection Hrun as <-.
    destruct (Hclaim _ eq_refl) as (control & Hcommand & Hbrake & _).
    injection Hcommand as <-. discriminate.
Qed.

End Runs.

(** ** The theorems at work on the scenario *)

Section Instances.

Import Scenario.

(** X21 on the follower and its lead: the pair passes the gate, the
    geometry is [follower_geometry], and the call returns the verdict of
    the rule. *)
Lemma X21_hazard_rule_on_code_priority_witness :
  ∃ r, NegotiateCollision ego lead ∅ ∅ ∅ ego_state lead_state car car green
         (road 0 31) (road 20 31) 10 1 1 = Ok r
       ∧ (neg_hazard r = true
          ↔ Spec.hazard_rule follower_geometry
              (ego_angular_priority ego_state lead_state = true)).
Proof.
  eapply (X21_hazard_rule_on_code_priority ego lead ∅ ∅ ∅ ego_state lead_state car car green
            (road 0 31) (road 20 31) 10 1 1 (road_waypoint 0) (road_waypoint 10)).
  - reflexivity.
  - reflexivity.
  - apply negotiation_gate_spec. vm_compute. reflexivity.
  - vm_compute. reflexivity.
Defined.

(** C5 on the follower and its lead: the gate holds and the call returns
    what the geometry decides. *)
Lemma C5_gate_witness :
  ∃ r, NegotiateCollision ego lead ∅ ∅ ∅ ego_state lead_state car car green
         (road 0 31) (road 20 31) 10 1 1 = Ok r
       ∧ neg_hazard r
         = negotiation_hazard follower_geometry
             (ego_angular_priority ego_state lead_state).
Proof.
  destruct (C5_gate ego lead ∅ ∅ ∅ ego_state lead_state car car green
              (road 0 31) (road 20 31) 10 1 1 (road_waypoint 0) (road_waypoint 10)
              eq_refl eq_refl) as [_ Hopen].
  destruct Hopen as [_ Hreturns].
  - apply negotiation_gate_spec. vm_compute. reflexivity.
  - destruct (Hreturns follower_geometry _ _ ltac:(vm_compute; reflexivity))
      as (r & Hr & Hhazard & _).
    exists r. split; assumption.
Defined.


(** C3 on the tick of the follower: the record has hazard = true and the
    follower holds a lock on the lead. *)
Lemma C3_lock_of_hazard_witness :
  ∃ out lock,
    CollisionAvoidance 0 [ego; lead] state_map attribute_map tl_state_map buffer_map
      track_traffic (parameters 0) ∅ [no_hazard; no_hazard] zeros = Ok out
    ∧ out_collision_locks out !! ego = Some lock
    ∧ lead_vehicle_id lock = lead.
Proof.
  destruct (CollisionAvoidance 0 [ego; lead] state_map attribute_map tl_state_map
              buffer_map track_traffic (parameters 0) ∅ [no_hazard; no_hazard] zeros)
    as [out|e] eqn:Hrun; [|vm_compute in Hrun; discriminate].
  destruct (proj2 C3_lock_of_hazard _ _ _ _ _ _ _ _ _ _ _ _ Hrun)
    as (actor & record & Hactor & Hrecord & Hlock).
  injection Hactor as <-.
  vm_compute in Hrun. injection Hrun as <-.
  vm_compute in Hrecord. injection Hrecord as <-.
  destruct (Hlock eq_refl) as (lock & Hlookup & Hlead).
  eexists. exists lock. split; [reflexivity|]. split; assumption.
Defined.

(** C7 on the follower without physics at a traffic light hazard. *)
Lemma C7_emergency_stop_witness :
  ∃ after entry,
    MotionPlan_call (plan_call ghost_state no_hazard true) (plan_start ∅) = Ok after
    ∧ out_pid_state_map after !! ego = Some entry
    ∧ deviation_integral entry = 0
    ∧ velocity_integral entry = 0
    ∧ out_control_frame after !! 0%nat
      = Some (ApplyTransform ego
                (mkTransform (location ghost_state) (rotation ghost_state))).
Proof.
  destruct (MotionPlan_call (plan_call ghost_state no_hazard true) (plan_start ∅))
    as [after|e] eqn:Hrun; [|vm_compute in Hrun; discriminate].
  unfold MotionPlan_call in Hrun.
  destruct (C7_emergency_stop _ _ _ _ _ _ _ _ _ _ _ _ _ _ _ _ after ego ghost_state
              no_hazard true Hrun eq_refl eq_refl eq_refl eq_refl
              (λ _, eq_refl) (or_introl eq_refl))
    as ((entry & Hentry & Hdi & Hvi) & Hcommand).
  exists after, entry. auto.
Defined.

(** C9 on the follower: the walk starts at the waypoint of index 3. *)
Lemma C9_first_rib_witness :
  ∃ left_ribs right_ribs boundary ring,
    geodesic_ribs ego ego_state car (road 0 31) 1 ∅
    = Ok (fst (rib (road_waypoint 3) 1) :: left_ribs,
          snd (rib (road_waypoint 3) 1) :: right_ribs)
    ∧ GetGeodesicBoundary ego ∅ ego_state car (road 0 31) 1 ∅
      = Ok (boundary, <[ego := boundary]> ∅)
    ∧ GetPolygon boundary = Ok ring.
Proof.
  destruct (C9_first_rib ego ∅ ego_state car (road 0 31) 1 ∅ (road_waypoint 3) 3)
    as (wp & l & r & boundary & ring & Hwp & Hribs & Hboundary & _ & _ & Hring & _).
  - reflexivity.
  - discriminate.
  - vm_compute. reflexivity.
  - vm_compute. lia.
  - reflexivity.
  - injection Hwp as <-. exists l, r, boundary, ring. auto.
Defined.

(** C10 on the follower without physics: its instant is 0 s, the clock is
    past 1 s, and the call teleports. *)
Lemma C10_teleportation_instant_kept_witness :
  ∃ after pose,
    MotionPlan_call (plan_call ghost_state no_hazard false) (plan_start {[ ego := 0 ]})
    = Ok after
    ∧ out_teleportation_instance after !! ego = Some 0
    ∧ teleport_target (road 0 31) (location ghost_state) (360 # 36) = Ok pose
    ∧ out_control_frame after !! 0%nat = Some (ApplyTransform ego pose).
Proof.
  destruct (MotionPlan_call (plan_call ghost_state no_hazard false)
              (plan_start {[ ego := 0 ]}))
    as [after|e] eqn:Hrun; [|vm_compute in Hrun; discriminate].
  destruct C10_teleportation_instant_kept as [Hkept Hteleports].
  assert (MotionPlan_calls [plan_call ghost_state no_hazard false]
            (plan_start {[ ego := 0 ]}) = Ok after) as Hcalls.
  { simpl. rewrite Hrun. reflexivity. }
  pose proof (Hkept _ _ _ ego 0 Hcalls eq_refl) as Hinstant.
  destruct (Hteleports _ _ _ ego ghost_state (road 0 31) no_hazard false 0 (360 # 36)
              Hrun)
    as (pose & Hpose & Hcommand).
  - reflexivity.
  - reflexivity.
  - reflexivity.
  - reflexivity.
  - reflexivity.
  - reflexivity.
  - reflexivity.
  - vm_compute. reflexivity.
  - reflexivity.
  - intros n _. unfold Qlt. simpl. lia.
  - exists after, pose. auto.
Defined.

End Instances.

(** * Further properties of the collision stage *)

Section DriverFrame.

Context `{Externals}.

(** NegotiateCollision only writes the lock of the reference vehicle. *)
Lemma update_collision_lock_other (reference_vehicle_id other_actor_id k : ActorId)
    (g : GeometryComparison) (collision_locks : CollisionLockMap) :
  k ≠ reference_vehicle_id →
  update_collision_lock reference_vehicle_id other_actor_id g collision_locks !! k
  = collision_locks !! k.
Proof.
  intros Hk. unfold update_collision_lock, map_insert.
  destruct (collision_locks !! reference_vehicle_id) as [lock|] eqn:Hlock.
  - destruct (decide _); [destruct (Qltb _ _)|]; apply lookup_insert_ne; congruence.
  - apply lookup_insert_ne. congruence.
Qed.

Lemma flush_collision_lock_other (hazard : bool) (reference_vehicle_id k : ActorId)
    (collision_locks : CollisionLockMap) :
  k ≠ reference_vehicle_id →
  flush_collision_lock hazard reference_vehicle_id collision_locks !! k
  = collision_locks !! k.
Proof.
  intros Hk. unfold flush_collision_lock.
  destruct (negb hazard && _); [apply lookup_delete_ne; congruence|reflexivity].
Qed.

Lemma NegotiateCollision_lock_frame
    (reference_vehicle_id other_actor_id : ActorId)
    (geometry_cache : GeometryComparisonMap)
    (geodesic_boundary_map : GeodesicBoundaryMap)
    (collision_locks : CollisionLockMap)
    (reference_vehicle_state other_vehicle_state : KinematicState)
    (reference_vehicle_attributes other_vehicle_attributes : StaticAttributes)
    (reference_tl_state : TrafficLightState)
    (reference_vehicle_buffer other_vehicle_buffer : Buffer)
    (reference_junction_look_ahead_index : nat)
    (reference_lead_distance other_lead_distance : Q) (r : Negotiation) (k : ActorId) :
  NegotiateCollision reference_vehicle_id other_actor_id
    geometry_cache geodesic_boundary_map collision_locks
    reference_vehicle_state other_vehicle_state
    reference_vehicle_attributes other_vehicle_attributes reference_tl_state
    reference_vehicle_buffer other_vehicle_buffer
    reference_junction_look_ahead_index
    reference_lead_distance other_lead_distance = Ok r →
  k ≠ reference_vehicle_id →
  neg_collision_locks r !! k = collision_locks !! k.
Proof.
  intros Hr Hk.
  destruct (NegotiateCollision_cases _ _ _ _ _ _ _ _ _ _ _ _ _ _ _ r Hr)
    as [->|(g & cache & boundaries & _ & ->)]; simpl.
  - apply flush_collision_lock_other, Hk.
  - unfold negotiated. destruct (negotiation_hazard _ _); simpl.
    + rewrite flush_collision_lock_other by exact Hk.
      apply update_collision_lock_other, Hk.
    + apply flush_collision_lock_other, Hk.
Qed.

Section Loop.

Variable state_map : KinematicStateMap.
Variable attribute_map : StaticAttributeMap.
Variable tl_state_map : TrafficLightStateMap.
Variable buffer_map : BufferMap.
Variable parameters : Parameters.
Variable ego_actor_id : ActorId.
Variable ego_kinematic_state : KinematicState.
Variable ego_attributes : StaticAttributes.
Variable look_ahead_index : nat.
Variable reference_lead_distance : Q.

Local Abbreviation loop :=
  (check_candidates state_map attribute_map tl_state_map buffer_map parameters
     ego_actor_id ego_kinematic_state ego_attributes look_ahead_index
     reference_lead_distance).

(** The loop leaves the locks of every other actor, commits only one of
    its candidates, and draws at most once per candidate from a source it
    does not replace. *)
Lemma check_candidates_frame (collision_candidate_ids : list ActorId) :
  ∀ geometry_cache geodesic_boundary_map collision_locks rng v,
    loop collision_candidate_ids geometry_cache geodesic_boundary_map
      collision_locks rng = Ok v →
    (∀ k, k ≠ ego_actor_id → verdict_locks v !! k = collision_locks !! k)
    ∧ (collision_hazard v = true → obstacle_id v ∈ collision_candidate_ids)
    ∧ rand_values (verdict_rand v) = rand_values rng
    ∧ (rand_calls rng ≤ rand_calls (verdict_rand v)
       ≤ rand_calls rng + length collision_candidate_ids)%nat.
Proof.
  induction collision_candidate_ids as [|other rest IH];
    intros cache boundaries locks rng v Hv; simpl in Hv.
  - injection Hv as <-. simpl. repeat split; [discriminate|lia|lia].
  - returned Hv as Htype. rename a into other_type.
    returned Hv as Hstate. returned Hv as Hattributes.
    assert (∀ cache' boundaries' locks' rng',
              loop rest cache' boundaries' locks' rng' = Ok v →
              (∀ k, k ≠ ego_actor_id → locks' !! k = locks !! k) →
              rand_values rng' = rand_values rng →
              (rand_calls rng ≤ rand_calls rng' ≤ S (rand_calls rng))%nat →
              (∀ k, k ≠ ego_actor_id → verdict_locks v !! k = locks !! k)
              ∧ (collision_hazard v = true → obstacle_id v ∈ other :: rest)
              ∧ rand_values (verdict_rand v) = rand_values rng
              ∧ (rand_calls rng ≤ rand_calls (verdict_rand v)
                 ≤ rand_calls rng + length (other :: rest))%nat) as Hrest.
    { intros cache' boundaries' locks' rng' Hloop Hlocks Hvalues Hcalls.
      destruct (IH _ _ _ _ _ Hloop) as (Hl & Ho & Hrv & Hrc).
      split; [intros k Hk; rewrite Hl, Hlocks by exact Hk; reflexivity|].
      split; [intros Hh; right; auto|].
      split; [congruence|]. simpl. lia. }
    match type of Hv with
    | (if ?c then _ else _) = _ => destruct c eqn:Hcond
    end; [|apply (Hrest _ _ _ _ Hv); auto; lia].
    returned Hv as Htl. returned Hv as Hego_buffer. returned Hv as Hother_buffer.
    returned Hv as Hnegotiation value r.
    assert (∀ k, k ≠ ego_actor_id → neg_collision_locks r !! k = locks !! k)
      as Hframe
      by (intros k Hk; eapply NegotiateCollision_lock_frame; eassumption).
    match type of Hv with
    | (if ?c then _ else _) = _ => destruct c eqn:Hhazard
    end; [|apply (Hrest _ _ _ _ Hv); auto; lia].
    assert (rand_values (snd (commit_hazard parameters ego_actor_id other_type rng))
            = rand_values rng
            ∧ (rand_calls rng
               ≤ rand_calls (snd (commit_hazard parameters ego_actor_id other_type rng))
               ≤ S (rand_calls rng))%nat) as [Hvalues Hcalls].
    { unfold commit_hazard, rand. destruct other_type; simpl; split; lia || reflexivity. }
    destruct (commit_hazard _ _ _ _) as [commit rng'].
    simpl in Hvalues, Hcalls.
    destruct commit; [|apply (Hrest _ _ _ _ Hv); auto].
    injection Hv as <-. simpl.
    split; [exact Hframe|]. split; [intros _; left|]. split; [exact Hvalues|lia].
Qed.

(** The candidates kept by the first loop are overlapping actors other
    than the ego, inside the collision radius and the vertical range. *)
Lemma filter_candidates_spec (overlapping_actors : list ActorId) :
  ∀ collision_candidate_ids result,
    filter_candidates state_map ego_actor_id ego_kinematic_state
      overlapping_actors collision_candidate_ids = Ok result →
    ∀ x, x ∈ result →
         x ∈ collision_candidate_ids
         ∨ (x ∈ overlapping_actors
            ∧ x ≠ ego_actor_id
            ∧ ∃ s, state_map !! x = Some s
                   ∧ DistanceSquared (location s) (location ego_kinematic_state)
                     < SQUARE MAX_COLLISION_RADIUS
                   ∧ Qabs (vz (location ego_kinematic_state) - vz (location s))
                     < VERTICAL_OVERLAP_THRESHOLD).
Proof.
  induction overlapping_actors as [|id rest IH]; intros acc result Hresult x Hx;
    simpl in Hresult.
  - injection Hresult as <-. auto.
  - step_ok Hresult. unfold GetLocation in Hstep. step_ok Hstep.
    apply map_at_Ok in Hstep0. injection Hstep as <-.
    match type of Hresult with
    | (if ?c then _ else _) = _ => destruct c eqn:Hcond
    end.
    + destruct (IH _ _ Hresult x Hx) as [Hacc|(Hin & Hne & Hs)].
      * apply elem_of_app in Hacc as [Hacc|Hnew]; [auto|].
        apply list_elem_of_singleton in Hnew as ->. right.
        apply andb_true_iff in Hcond as [Hcond Hz].
        apply andb_true_iff in Hcond as [Hne Hd].
        apply negb_true_iff, bool_decide_eq_false in Hne.
        apply Qltb_lt in Hd, Hz.
        split; [left|]. split; [exact Hne|]. eauto.
      * right. split; [right; exact Hin|]. auto.
    + destruct (IH _ _ Hresult x Hx) as [Hacc|(Hin & Hne & Hs)]; [auto|].
      right. split; [right; exact Hin|]. auto.
Qed.

Lemma insert_sorted_elem (x y : ActorId) (l : list ActorId) :
  y ∈ insert_sorted state_map ego_kinematic_state x l ↔ y = x ∨ y ∈ l.
Proof.
  induction l as [|z l IH]; simpl.
  - rewrite elem_of_cons. reflexivity.
  - destruct (closer_to_ego _ _ _ _).
    + rewrite !elem_of_cons, IH. tauto.
    + rewrite !elem_of_cons. tauto.
Qed.

(** Sorting keeps the candidates. *)
Lemma sort_candidates_elem (y : ActorId) (l : list ActorId) :
  y ∈ sort_candidates state_map ego_kinematic_state l ↔ y ∈ l.
Proof.
  unfold sort_candidates. induction l as [|x l IH]; simpl; [reflexivity|].
  rewrite insert_sorted_elem, IH, elem_of_cons. reflexivity.
Qed.

Lemma insert_sorted_length (x : ActorId) (l : list ActorId) :
  length (insert_sorted state_map ego_kinematic_state x l) = S (length l).
Proof.
  induction l as [|z l IH]; simpl; [reflexivity|].
  destruct (closer_to_ego _ _ _ _); simpl; [rewrite IH|]; reflexivity.
Qed.

Lemma sort_candidates_length (l : list ActorId) :
  length (sort_candidates state_map ego_kinematic_state l) = length l.
Proof.
  unfold sort_candidates. induction l as [|x l IH]; simpl; [reflexivity|].
  rewrite insert_sorted_length, IH. reflexivity.
Qed.

Lemma filter_candidates_length (overlapping_actors : list ActorId) :
  ∀ collision_candidate_ids result,
    filter_candidates state_map ego_actor_id ego_kinematic_state
      overlapping_actors collision_candidate_ids = Ok result →
    (length result ≤ length collision_candidate_ids + length overlapping_actors)%nat.
Proof.
  induction overlapping_actors as [|id rest IH]; intros acc result Hresult;
    simpl in Hresult.
  - injection Hresult as <-. lia.
  - returned Hresult as Hlocation value l.
    match type of Hresult with
    | (if ?c then _ else _) = _ => destruct c
    end; apply IH in Hresult; rewrite ?length_app in Hresult; simpl in *; lia.
Qed.

End Loop.

End DriverFrame.

Section DriverExtras.

Context `{Externals}.

Variable index : nat.
Variable vehicle_id_list : list ActorId.
Variable state_map : KinematicStateMap.
Variable attribute_map : StaticAttributeMap.
Variable tl_state_map : TrafficLightStateMap.
Variable buffer_map : BufferMap.
Variable track_traffic : TrackTraffic.
Variable parameters : Parameters.
Variable collision_locks : CollisionLockMap.
Variable output_array : list CollisionHazardData.
Variable rng : Rand.

Local Abbreviation drive :=
  (CollisionAvoidance index vehicle_id_list state_map attribute_map tl_state_map
     buffer_map track_traffic parameters collision_locks output_array rng).

(** X1. An ego without kinematic state or without attributes is skipped:
    the driver returns, writes the record (0, +infinity, false) at the
    index of the ego and leaves the locks and the random source as they
    were; neither the buffer map nor the overlap index is read. *)
Theorem X1_unknown_ego_is_skipped (ego : ActorId) (old : CollisionHazardData) :
  vehicle_id_list !! index = Some ego →
  output_array !! index = Some old →
  state_map !! ego = None ∨ attribute_map !! ego = None →
  drive = Ok (mkCollisionOutput collision_locks
                (<[index := mkCollisionHazardData 0%N Inf false]> output_array) rng).
Proof.
  intros Hego Hold Hmissing. unfold CollisionAvoidance.
  rewrite (proj2 (list_at_Ok _ _ _) Hego). unfold mbind, result_bind. cbv beta iota.
  assert (write_hazard index (mkVerdict 0%N false Inf collision_locks rng) output_array
          = Ok (<[index := mkCollisionHazardData 0%N Inf false]> output_array))
    as Hwrite.
  { unfold write_hazard. rewrite (proj2 (list_at_Ok _ _ _) Hold). reflexivity. }
  destruct Hmissing as [Hnone|Hnone]; rewrite Hnone.
  - rewrite Hwrite. reflexivity.
  - destruct (state_map !! ego); rewrite Hwrite; reflexivity.
Qed.

(** A call that returns, with the candidates of its loop. *)
Lemma CollisionAvoidance_candidates (out : CollisionOutput) (ego : ActorId) :
  drive = Ok out →
  vehicle_id_list !! index = Some ego →
  out_rand out = rng ∧ out_collision_locks out = collision_locks
  ∧ (∃ record, out_frame out !! index = Some record ∧ hazard record = false)
  ∨ ∃ ego_state ego_attributes look_ahead_index filtered v,
      state_map !! ego = Some ego_state
      ∧ filter_candidates state_map ego ego_state
          (GetOverlappingVehicles track_traffic ego) [] = Ok filtered
      ∧ check_candidates state_map attribute_map tl_state_map buffer_map
          parameters ego ego_state ego_attributes look_ahead_index
          (GetDistanceToLeadingVehicle parameters ego)
          (sort_candidates state_map ego_state filtered)
          ∅ ∅ collision_locks rng = Ok v
      ∧ out_collision_locks out = verdict_locks v
      ∧ out_rand out = verdict_rand v
      ∧ out_frame out !! index
        = Some (mkCollisionHazardData (obstacle_id v) (verdict_margin v)
                  (collision_hazard v)).
Proof.
  unfold CollisionAvoidance. intros Hout Hego.
  rewrite (proj2 (list_at_Ok _ _ _) Hego) in Hout.
  returned Hout as Hv value v.
  returned Hout as Hwrite value frame. injection Hout as <-. simpl.
  unfold write_hazard in Hwrite. returned Hwrite as Hslot value old.
  apply list_at_Ok, lookup_lt_Some in Hslot. injection Hwrite as <-.
  rewrite list_lookup_insert_eq by exact Hslot.
  destruct (state_map !! ego) as [ego_state|] eqn:Hstate;
    [destruct (attribute_map !! ego) as [ego_attributes|] eqn:Hattr|].
  - right. returned Hv as Hbuffer value ego_buffer.
    returned Hv as Htarget value target.
    returned Hv as Hfilter value filtered.
    exists ego_state, ego_attributes, (snd target), filtered, v. auto 10.
  - left. injection Hv as <-. simpl. eauto.
  - left. injection Hv as <-. simpl. eauto.
Qed.

(** X2. The driver writes the slot of the ego only: the frame keeps its
    length and every other slot. *)
Theorem X2_other_slots_kept (out : CollisionOutput) :
  drive = Ok out →
  length (out_frame out) = length output_array
  ∧ ∀ j, j ≠ index → out_frame out !! j = output_array !! j.
Proof.
  intros Hout.
  destruct (CollisionAvoidance_inv _ _ _ _ _ _ _ _ _ _ _ _ Hout)
    as (ego & v & _ & _ & -> & _).
  split; [apply length_insert|].
  intros j Hj. apply list_lookup_insert_ne. congruence.
Qed.

(** X3. A tick of an ego leaves the collision locks of every other actor
    as they were. *)
Theorem X3_other_locks_kept (out : CollisionOutput) (ego k : ActorId) :
  drive = Ok out →
  vehicle_id_list !! index = Some ego →
  k ≠ ego →
  out_collision_locks out !! k = collision_locks !! k.
Proof.
  intros Hout Hego Hk.
  destruct (CollisionAvoidance_candidates out ego Hout Hego)
    as [(_ & -> & _)|(es & ea & look & filtered & v & _ & _ & Hloop & -> & _)];
    [reflexivity|].
  destruct (check_candidates_frame _ _ _ _ _ _ _ _ _ _ _ _ _ _ _ _ Hloop)
    as (Hlocks & _).
  apply Hlocks, Hk.
Qed.

(** X4. The actor of a record written with hazard = true is one of the
    overlapping actors of the ego, is not the ego, and lies inside the
    collision radius and the vertical overlap range of the ego. *)
Theorem X4_hazard_actor_is_candidate (out : CollisionOutput) (ego : ActorId)
    (record : CollisionHazardData) :
  drive = Ok out →
  vehicle_id_list !! index = Some ego →
  out_frame out !! index = Some record →
  hazard record = true →
  hazard_actor_id record ∈ GetOverlappingVehicles track_traffic ego
  ∧ hazard_actor_id record ≠ ego
  ∧ ∃ ego_state other_state,
      state_map !! ego = Some ego_state
      ∧ state_map !! hazard_actor_id record = Some other_state
      ∧ DistanceSquared (location other_state) (location ego_state)
        < SQUARE MAX_COLLISION_RADIUS
      ∧ Qabs (vz (location ego_state) - vz (location other_state))
        < VERTICAL_OVERLAP_THRESHOLD.
Proof.
  intros Hout Hego Hrecord Hhazard.
  destruct (CollisionAvoidance_candidates out ego Hout Hego)
    as [(_ & _ & record' & Hrecord' & Hclear)
       |(es & ea & look & filtered & v & Hes & Hfilter & Hloop & _ & _ & Hwritten)].
  - congruence.
  - assert (record = mkCollisionHazardData (obstacle_id v) (verdict_margin v)
                       (collision_hazard v)) as -> by congruence.
    simpl in *.
    destruct (check_candidates_frame _ _ _ _ _ _ _ _ _ _ _ _ _ _ _ _ Hloop)
      as (_ & Hobstacle & _).
    specialize (Hobstacle Hhazard). apply sort_candidates_elem in Hobstacle.
    destruct (filter_candidates_spec _ _ _ _ _ _ Hfilter _ Hobstacle)
      as [Hnil|(Hin & Hne & s & Hs & Hd & Hz)].
    + apply elem_of_nil in Hnil. contradiction.
    + split; [exact Hin|]. split; [exact Hne|]. exists es, s. auto.
Qed.

(** X5. The driver draws from the random source at most once per
    overlapping actor, and reads the source without replacing it. *)
Theorem X5_draws_bounded (out : CollisionOutput) (ego : ActorId) :
  drive = Ok out →
  vehicle_id_list !! index = Some ego →
  rand_values (out_rand out) = rand_values rng
  ∧ (rand_calls rng ≤ rand_calls (out_rand out)
     ≤ rand_calls rng + length (GetOverlappingVehicles track_traffic ego))%nat.
Proof.
  intros Hout Hego.
  destruct (CollisionAvoidance_candidates out ego Hout Hego)
    as [(-> & _)|(es & ea & look & filtered & v & _ & Hfilter & Hloop & _ & -> & _)];
    [split; [reflexivity|lia]|].
  destruct (check_candidates_frame _ _ _ _ _ _ _ _ _ _ _ _ _ _ _ _ Hloop)
    as (_ & _ & Hvalues & Hcalls).
  split; [exact Hvalues|].
  assert (length (sort_candidates state_map es filtered)
          ≤ length (GetOverlappingVehicles track_traffic ego))%nat; [|lia].
  rewrite sort_candidates_length.
  pose proof (filter_candidates_length _ _ _ _ _ _ Hfilter) as Hlen.
  simpl in Hlen. lia.
Qed.

End DriverExtras.

Section GeometryExtras.

Context `{Externals}.

(** X6. The lock after a negotiation that found a hazard: its lead is the
    other actor; when the reference vehicle already held a lock on that
    actor, the initial distance is kept and the distance to the lead is the
    distance between the bodies if the other body touches the corridor of
    the reference vehicle, else the distance from the reference body to
    the other corridor; otherwise both distances are the distance between
    the bodies. *)
Theorem X6_lock_after_hazard
    (reference_vehicle_id other_actor_id : ActorId)
    (geometry_cache : GeometryComparisonMap)
    (geodesic_boundary_map : GeodesicBoundaryMap)
    (collision_locks : CollisionLockMap)
    (reference_vehicle_state other_vehicle_state : KinematicState)
    (reference_vehicle_attributes other_vehicle_attributes : StaticAttributes)
    (reference_tl_state : TrafficLightState)
    (reference_vehicle_buffer other_vehicle_buffer : Buffer)
    (reference_junction_look_ahead_index : nat)
    (reference_lead_distance other_lead_distance : Q) (r : Negotiation) :
  NegotiateCollision reference_vehicle_id other_actor_id
    geometry_cache geodesic_boundary_map collision_locks
    reference_vehicle_state other_vehicle_state
    reference_vehicle_attributes other_vehicle_attributes reference_tl_state
    reference_vehicle_buffer other_vehicle_buffer
    reference_junction_look_ahead_index
    reference_lead_distance other_lead_distance = Ok r →
  neg_hazard r = true →
  ∃ g cache boundaries,
    GetGeometryBetweenActors geometry_cache geodesic_boundary_map
      reference_vehicle_id other_actor_id
      reference_vehicle_state other_vehicle_state
      reference_vehicle_attributes other_vehicle_attributes
      reference_vehicle_buffer other_vehicle_buffer
      collision_locks reference_lead_distance other_lead_distance
    = Ok (g, cache, boundaries)
    ∧ neg_collision_locks r !! reference_vehicle_id
      = Some
          match collision_locks !! reference_vehicle_id with
          | Some lock =>
              if decide (other_actor_id = lead_vehicle_id lock)
              then mkCollisionLock other_actor_id (initial_lock_distance lock)
                     (if Qltb (other_vehicle_to_reference_geodesic g) (1 # 10)
                      then inter_bbox_distance g
                      else reference_vehicle_to_other_geodesic g)
              else mkCollisionLock other_actor_id (inter_bbox_distance g)
                     (inter_bbox_distance g)
          | None => mkCollisionLock other_actor_id (inter_bbox_distance g)
                      (inter_bbox_distance g)
          end.
Proof.
  intros Hr Hhazard.
  destruct (NegotiateCollision_cases _ _ _ _ _ _ _ _ _ _ _ _ _ _ _ r Hr)
    as [->|(g & cache & boundaries & Hg & ->)]; [discriminate|].
  exists g, cache, boundaries. split; [exact Hg|].
  unfold negotiated in *. destruct (negotiation_hazard _ _); [|discriminate].
  simpl. unfold update_collision_lock, map_insert.
  destruct (collision_locks !! reference_vehicle_id) as [lock|] eqn:Hlock.
  - destruct (decide (other_actor_id = lead_vehicle_id lock)) as [->|Hne].
    + destruct (Qltb _ _); apply lookup_insert_eq.
    + apply lookup_insert_eq.
  - apply lookup_insert_eq.
Qed.

(** X7. A lock that is created (the reference vehicle held none, or held
    one on another actor) pins the bounding box extension of the next
    call: when LOCKING_DISTANCE_PADDING is below MAX_LOCKING_EXTENSION the
    extension is the distance between the bodies plus the padding,
    whatever the speed. *)
Theorem X7_new_lock_pins_extension
    (reference_vehicle_id other_actor_id : ActorId) (g : GeometryComparison)
    (collision_locks : CollisionLockMap) (kinematic_state : KinematicState) :
  LOCKING_DISTANCE_PADDING < MAX_LOCKING_EXTENSION →
  (∀ lock, collision_locks !! reference_vehicle_id = Some lock →
           lead_vehicle_id lock ≠ other_actor_id) →
  GetBoundingBoxExtention reference_vehicle_id kinematic_state
    (update_collision_lock reference_vehicle_id other_actor_id g collision_locks)
  = inter_bbox_distance g + LOCKING_DISTANCE_PADDING.
Proof.
  intros Hpadding Hnew.
  assert (update_collision_lock reference_vehicle_id other_actor_id g collision_locks
            !! reference_vehicle_id
          = Some (mkCollisionLock other_actor_id (inter_bbox_distance g)
                    (inter_bbox_distance g))) as Hlock.
  { unfold update_collision_lock, map_insert.
    destruct (collision_locks !! reference_vehicle_id) as [lock|] eqn:Hold.
    - destruct (decide (other_actor_id = lead_vehicle_id lock)) as [E|_].
      + exfalso. apply (Hnew lock eq_refl). congruence.
      + apply lookup_insert_eq.
    - apply lookup_insert_eq. }
  unfold GetBoundingBoxExtention. rewrite Hlock. simpl.
  assert (Qltb (inter_bbox_distance g + LOCKING_DISTANCE_PADDING
                - inter_bbox_distance g) MAX_LOCKING_EXTENSION = true) as ->;
    [|reflexivity].
  apply Qltb_lt. lra.
Qed.

(** X8. GetBoundary returns four corners centred on the location of the
    actor: opposite corners are mirror images of each other. *)
Theorem X8_bounding_box_centred (kinematic_state : KinematicState)
    (attributes : StaticAttributes) :
  ∃ c1 c2 c3 c4,
    GetBoundary kinematic_state attributes = [c1; c2; c3; c4]
    ∧ vx c1 + vx c3 == 2 * vx (location kinematic_state)
    ∧ vy c1 + vy c3 == 2 * vy (location kinematic_state)
    ∧ vz c1 + vz c3 == 2 * vz (location kinematic_state)
    ∧ vx c2 + vx c4 == 2 * vx (location kinematic_state)
    ∧ vy c2 + vy c4 == 2 * vy (location kinematic_state)
    ∧ vz c2 + vz c4 == 2 * vz (location kinematic_state).
Proof.
  unfold GetBoundary. cbv zeta.
  do 4 eexists. split; [reflexivity|].
  unfold vadd, vsub, vscale. cbn [vx vy vz].
  repeat split; ring.
Qed.

(** X9. GetGeodesicBoundary memoizes: a call that returns leaves the
    boundary it returns under the actor, touches no other entry, and
    every later call for the actor returns the same boundary and the same
    map, whatever its other arguments. *)
Theorem X9_geodesic_boundary_memoized (actor_id : ActorId)
    (geodesic_boundary_map geodesic_boundary_map' : GeodesicBoundaryMap)
    (kinematic_state : KinematicState) (attributes : StaticAttributes)
    (waypoint_buffer : Buffer) (specific_lead_distance : Q)
    (collision_lock_map : CollisionLockMap) (boundary : LocationList) :
  GetGeodesicBoundary actor_id geodesic_boundary_map kinematic_state attributes
    waypoint_buffer specific_lead_distance collision_lock_map
  = Ok (boundary, geodesic_boundary_map') →
  geodesic_boundary_map' !! actor_id = Some boundary
  ∧ (∀ k, k ≠ actor_id → geodesic_boundary_map' !! k = geodesic_boundary_map !! k)
  ∧ ∀ kinematic_state' attributes' waypoint_buffer' specific_lead_distance'
      collision_lock_map',
      GetGeodesicBoundary actor_id geodesic_boundary_map' kinematic_state'
        attributes' waypoint_buffer' specific_lead_distance' collision_lock_map'
      = Ok (boundary, geodesic_boundary_map').
Proof.
  unfold GetGeodesicBoundary at 1. intros Hcall.
  assert (geodesic_boundary_map' !! actor_id = Some boundary
          ∧ ∀ k, k ≠ actor_id →
                 geodesic_boundary_map' !! k = geodesic_boundary_map !! k)
    as [Hentry Hothers].
  { destruct (geodesic_boundary_map !! actor_id) as [cached|] eqn:Hcached.
    - injection Hcall as <- <-. auto.
    - returned Hcall as Hboundary value b. injection Hcall as <- <-.
      unfold map_insert. rewrite Hcached.
      split; [apply lookup_insert_eq|].
      intros k Hk. apply lookup_insert_ne. congruence. }
  split; [exact Hentry|]. split; [exact Hothers|].
  intros. unfold GetGeodesicBoundary. rewrite Hentry. reflexivity.
Qed.

(** X10. GetPolygon closes the ring: it fails on an empty boundary, and
    otherwise returns one point more than the boundary, the point of the
    first location coming first and last. *)
Theorem X10_polygon_is_closed (boundary : LocationList) :
  (boundary = [] → GetPolygon boundary = Raise empty_front)
  ∧ (∀ ring, GetPolygon boundary = Ok ring →
       ∃ first,
         head boundary = Some first
         ∧ length ring = S (length boundary)
         ∧ head ring = Some (to_point first)
         ∧ last ring = Some (to_point first)
         ∧ take (length boundary) ring = map to_point boundary).
Proof.
  split; [intros ->; reflexivity|].
  intros ring Hring. destruct boundary as [|first rest]; [discriminate|].
  injection Hring as <-. exists first. split; [reflexivity|].
  assert (to_point first :: map to_point rest ++ [to_point first]
          = map to_point (first :: rest) ++ [to_point first]) as -> by reflexivity.
  split; [rewrite length_app, length_map; simpl; lia|].
  split; [reflexivity|]. split; [apply last_snoc|].
  rewrite <- (length_map to_point (first :: rest)). apply take_app_length.
Qed.

End GeometryExtras.

Section AngularPriority.

Context `{Externals}.

Lemma Qltb_comp (a a' b b' : Q) : a == a' → b == b' → Qltb a b = Qltb a' b'.
Proof.
  intros Ha Hb. destruct (Qltb a' b') eqn:E.
  - apply Qltb_lt. apply Qltb_lt in E. rewrite Ha, Hb. exact E.
  - apply Qltb_ge. apply Qltb_ge in E. rewrite Ha, Hb. exact E.
Qed.

(** X11. As the code computes it, the ego has angular priority exactly
    when the other actor is behind it: both dot products are taken with
    the heading of the reference vehicle, and the second direction is
    the opposite of the first.  The square root is assumed to give equal
    results on equal rationals. *)
Theorem X11_angular_priority_means_behind
    (reference_vehicle_state other_vehicle_state : KinematicState) :
  (∀ a b, a == b → sqrtf a == sqrtf b) →
  (ego_angular_priority reference_vehicle_state other_vehicle_state = true
   ↔ Dot (GetForwardVector (rotation reference_vehicle_state))
         (normalize_guarded (vsub (location other_vehicle_state)
                               (location reference_vehicle_state))) < 0).
Proof.
  intros Hsqrt. unfold ego_angular_priority. cbv zeta. rewrite Qltb_lt.
  set (h := GetForwardVector (rotation reference_vehicle_state)).
  set (o := location other_vehicle_state).
  set (r := location reference_vehicle_state).
  assert (Length (vsub r o) == Length (vsub o r)) as Hlength.
  { unfold Length. apply Hsqrt.
    unfold SquaredLength, Dot, vsub. cbn [vx vy vz]. ring. }
  unfold normalize_guarded.
  rewrite (Qltb_comp (2 * FLT_EPSILON) (2 * FLT_EPSILON)
             (Length (vsub r o)) (Length (vsub o r)) (Qeq_refl _) Hlength
           : Qgtb (Length (vsub r o)) (2 * FLT_EPSILON)
             = Qgtb (Length (vsub o r)) (2 * FLT_EPSILON)).
  destruct (Qgtb (Length (vsub o r)) (2 * FLT_EPSILON)).
  - assert (/ Length (vsub r o) == / Length (vsub o r)) as Hinv
      by (rewrite Hlength; reflexivity).
    unfold Dot, vdiv, vsub, Qdiv. cbn [vx vy vz]. rewrite Hinv.
    set (i := / Length _). split; intros Hlt; lra.
  - unfold Dot, vsub. cbn [vx vy vz]. split; intros Hlt; lra.
Qed.

End AngularPriority.

Section FreshQueries.

Context `{Externals}.

Lemma map_insert_lookup_ne `{Countable K} {V} (k j : K) (v : V) (m : gmap K V) :
  j ≠ k → map_insert k v m !! j = m !! j.
Proof.
  intros Hj. unfold map_insert. destruct (m !! k); [reflexivity|].
  apply lookup_insert_ne. congruence.
Qed.

Lemma map_insert_lookup_eq `{Countable K} {V} (k : K) (v : V) (m : gmap K V) :
  map_insert k v m !! k = Some (default v (m !! k)).
Proof.
  unfold map_insert. destruct (m !! k) eqn:E; simpl; [exact E|].
  apply lookup_insert_eq.
Qed.

Lemma map_insert_comm `{Countable K} {V} (k j : K) (v w : V) (m : gmap K V) :
  j ≠ k → map_insert k v (map_insert j w m) = map_insert j w (map_insert k v m).
Proof.
  intros Hj. apply map_eq. intros i.
  destruct (decide (i = k)) as [->|Hik].
  - rewrite map_insert_lookup_eq, !map_insert_lookup_ne by congruence.
    rewrite map_insert_lookup_eq. reflexivity.
  - rewrite (map_insert_lookup_ne k i) by exact Hik.
    destruct (decide (i = j)) as [->|Hij].
    + rewrite !map_insert_lookup_eq, map_insert_lookup_ne by congruence. reflexivity.
    + rewrite !map_insert_lookup_ne by assumption. reflexivity.
Qed.

(** The boundary of an actor depends on the map through the entry of the
    actor only, and the map that comes back is the map with the boundary
    inserted (a no-op on a hit). *)
Lemma GetGeodesicBoundary_entry (actor_id : ActorId)
    (geodesic_boundary_map geodesic_boundary_map' : GeodesicBoundaryMap)
    (kinematic_state : KinematicState) (attributes : StaticAttributes)
    (waypoint_buffer : Buffer) (specific_lead_distance : Q)
    (collision_lock_map : CollisionLockMap) (boundary : LocationList) :
  GetGeodesicBoundary actor_id geodesic_boundary_map kinematic_state attributes
    waypoint_buffer specific_lead_distance collision_lock_map
  = Ok (boundary, geodesic_boundary_map') →
  geodesic_boundary_map' = map_insert actor_id boundary geodesic_boundary_map
  ∧ ∀ other_map : GeodesicBoundaryMap,
      other_map !! actor_id = geodesic_boundary_map !! actor_id →
      GetGeodesicBoundary actor_id other_map kinematic_state attributes
        waypoint_buffer specific_lead_distance collision_lock_map
      = Ok (boundary, map_insert actor_id boundary other_map).
Proof.
  unfold GetGeodesicBoundary. intros Hcall.
  destruct (geodesic_boundary_map !! actor_id) as [cached|] eqn:Hcached.
  - injection Hcall as <- <-. unfold map_insert. rewrite Hcached.
    split; [reflexivity|]. intros other_map ->. reflexivity.
  - returned Hcall as Hboundary value b. injection Hcall as <- <-.
    split; [reflexivity|]. intros other_map ->.
    unfold mbind, result_bind. rewrite Hboundary. reflexivity.
Qed.

(** X12. When neither order of a pair is in the cache and the polygon
    distance is symmetric, the two orders of the pair return comparisons
    whose geodesic fields are swapped and whose inter-distances agree,
    and leave the same boundary map; each stores its result under its own
    key. *)
Theorem X12_fresh_queries_are_swapped
    (geometry_cache : GeometryComparisonMap)
    (geodesic_boundary_map : GeodesicBoundaryMap)
    (a b : ActorId) (state_a state_b : KinematicState)
    (attributes_a attributes_b : StaticAttributes)
    (buffer_a buffer_b : Buffer) (collision_lock_map : CollisionLockMap)
    (lead_a lead_b : Q)
    (m : GeometryComparison) (cache : GeometryComparisonMap)
    (boundaries : GeodesicBoundaryMap) :
  (∀ p q, bg_distance p q = bg_distance q p) →
  a ≠ b →
  geometry_cache !! actor_id_key a b = None →
  geometry_cache !! actor_id_key b a = None →
  GetGeometryBetweenActors geometry_cache geodesic_boundary_map a b
    state_a state_b attributes_a attributes_b buffer_a buffer_b
    collision_lock_map lead_a lead_b = Ok (m, cache, boundaries) →
  cache = <[actor_id_key a b := m]> geometry_cache
  ∧ GetGeometryBetweenActors geometry_cache geodesic_boundary_map b a
      state_b state_a attributes_b attributes_a buffer_b buffer_a
      collision_lock_map lead_b lead_a
    = Ok (swap_geodesic m,
          <[actor_id_key b a := swap_geodesic m]> geometry_cache, boundaries).
Proof.
  intros Hsym Hab Hmiss Hmiss' Hcall.
  unfold GetGeometryBetweenActors in Hcall |- *. cbv zeta in Hcall |- *.
  rewrite Hmiss in Hcall. rewrite Hmiss'.
  returned Hcall as Hpoly_a value poly_a.
  returned Hcall as Hpoly_b value poly_b.
  returned Hcall as Hgeo_a value geo_a. destruct geo_a as [geo_a map1].
  returned Hcall as Hring_a value ring_a.
  returned Hcall as Hgeo_b value geo_b. destruct geo_b as [geo_b map2].
  returned Hcall as Hring_b value ring_b.
  injection Hcall as <- <- <-.
  destruct (GetGeodesicBoundary_entry _ _ _ _ _ _ _ _ _ Hgeo_a) as [-> Ha].
  destruct (GetGeodesicBoundary_entry _ _ _ _ _ _ _ _ _ Hgeo_b) as [-> Hb].
  split; [unfold map_insert; rewrite Hmiss; reflexivity|].
  unfold mbind, result_bind. cbv beta iota.
  rewrite (Hb geodesic_boundary_map)
    by (rewrite map_insert_lookup_ne by congruence; reflexivity).
  rewrite Hring_b.
  rewrite (Ha (map_insert b geo_b geodesic_boundary_map))
    by (apply map_insert_lookup_ne; congruence).
  rewrite Hring_a.
  unfold map_insert at 1. rewrite Hmiss'.
  rewrite (map_insert_comm a b geo_a geo_b) by congruence.
  unfold swap_geodesic. simpl.
  rewrite (Hsym ring_b ring_a), (Hsym poly_b poly_a). reflexivity.
Qed.

End FreshQueries.

(** * Further properties of the motion planner *)

Section PlannerExtras.

Context `{Externals}.

Lemma std_min_le_l (a b : Q) : std_min a b <= a.
Proof.
  unfold std_min. destruct (Qltb b a) eqn:E.
  - apply Qltb_lt in E. apply Qlt_le_weak, E.
  - apply Qle_refl.
Qed.

(** X13. The dynamic target velocity that the resolver returns never
    exceeds the maximum target velocity of the vehicle, the configured
    velocity divided by 3.6. *)
Theorem X13_speed_clamp (state_map : KinematicStateMap)
    (attribute_map : StaticAttributeMap) (parameters : Parameters)
    (actor_id : ActorId) (ego_velocity ego_heading : Vector3D)
    (collision_hazard : CollisionHazardData) (tl_hazard : bool)
    (resolved : Q * bool) :
  target_resolver state_map attribute_map parameters actor_id ego_velocity
    ego_heading collision_hazard tl_hazard = Ok resolved →
  ∃ attributes,
    attribute_map !! actor_id = Some attributes
    ∧ fst resolved
      <= GetVehicleTargetVelocity parameters actor_id (speed_limit attributes)
         / (36 # 10).
Proof.
  unfold target_resolver. cbv zeta. intros Hr.
  returned Hr as Hattributes value attributes. apply map_at_Ok in Hattributes.
  returned Hr as Hresponse value response. injection Hr as <-. simpl.
  exists attributes. split; [exact Hattributes|]. apply std_min_le_l.
Qed.

(** X14. The resolver asks for an emergency stop only at a traffic light
    hazard or at a collision hazard whose margin is finite and not above
    CRITICAL_BRAKING_MARGIN. *)
Theorem X14_emergency_stop_causes (state_map : KinematicStateMap)
    (attribute_map : StaticAttributeMap) (parameters : Parameters)
    (actor_id : ActorId) (ego_velocity ego_heading : Vector3D)
    (collision_hazard : CollisionHazardData) (tl_hazard : bool)
    (resolved : Q * bool) :
  target_resolver state_map attribute_map parameters actor_id ego_velocity
    ego_heading collision_hazard tl_hazard = Ok resolved →
  snd resolved = true →
  tl_hazard = true
  ∨ (hazard collision_hazard = true
     ∧ ∃ m, available_distance_margin collision_hazard = Fin m
            ∧ m <= CRITICAL_BRAKING_MARGIN).
Proof.
  unfold target_resolver. cbv zeta. intros Hr Hstop.
  returned Hr as Hattributes value attributes.
  returned Hr as Hresponse value response. injection Hr as <-. simpl in Hstop.
  destruct tl_hazard; [left; reflexivity|]. right. simpl in Hstop.
  unfold collision_response in Hresponse.
  destruct (hazard collision_hazard); [|injection Hresponse as <-; discriminate].
  split; [reflexivity|]. cbv zeta in Hresponse.
  returned Hresponse as Hother value other_state.
  destruct (available_distance_margin collision_hazard) as [m|]; simpl in Hresponse.
  - exists m. split; [reflexivity|].
    destruct (Qltb m CRITICAL_BRAKING_MARGIN) eqn:Hbelow.
    + apply Qltb_lt in Hbelow. apply Qlt_le_weak, Hbelow.
    + destruct (Qgtb (Length _) EPSILON_RELATIVE_SPEED).
      * destruct (Qgtb m (_ + _)); [injection Hresponse as <-; discriminate|].
        destruct (Qgtb m CRITICAL_BRAKING_MARGIN) eqn:Habove;
          [injection Hresponse as <-; discriminate|].
        apply Qltb_ge in Habove. exact Habove.
      * injection Hresponse as <-. discriminate.
  - destruct (Qgtb (Length _) EPSILON_RELATIVE_SPEED);
      injection Hresponse as <-; discriminate.
Qed.

Section Call.

Variable index : nat.
Variable vehicle_id_list : list ActorId.
Variable state_map : KinematicStateMap.
Variable attribute_map : StaticAttributeMap.
Variable parameters : Parameters.
Variable buffer_map : BufferMap.
Variables urban_longitudinal_parameters highway_longitudinal_parameters : list Q.
Variables urban_lateral_parameters highway_lateral_parameters : list Q.
Variable collision_frame : list CollisionHazardData.
Variable tl_frame : list bool.
Variable pid_state_map : PidStateMap.
Variable teleportation_instance : TeleportationMap.
Variable output_array : list Command.
Variable clock : Clock.

Local Abbreviation plan :=
  (MotionPlan index vehicle_id_list state_map attribute_map parameters buffer_map
     urban_longitudinal_parameters highway_longitudinal_parameters
     urban_lateral_parameters highway_lateral_parameters
     collision_frame tl_frame pid_state_map teleportation_instance
     output_array clock).

Lemma initialize_state_entry_other (actor_id k : ActorId) :
  k ≠ actor_id →
  fst (initialize_state_entry actor_id pid_state_map clock) !! k
  = pid_state_map !! k.
Proof.
  intros Hk. unfold initialize_state_entry.
  destruct (pid_state_map !! actor_id) eqn:E; simpl; [reflexivity|].
  apply map_insert_lookup_ne, Hk.
Qed.

(** X15. A call of the planner writes for its ego only: the PID state and
    the teleportation instant of every other actor and every other slot
    of the control frame are kept, the frame keeps its length, and the ego
    has a PID state afterwards. *)
Theorem X15_planner_writes_for_ego_only (out : MotionOutput) (ego : ActorId) :
  plan = Ok out →
  vehicle_id_list !! index = Some ego →
  is_Some (out_pid_state_map out !! ego)
  ∧ (∀ k, k ≠ ego →
          out_pid_state_map out !! k = pid_state_map !! k
          ∧ out_teleportation_instance out !! k = teleportation_instance !! k)
  ∧ length (out_control_frame out) = length output_array
  ∧ ∀ j, j ≠ index → out_control_frame out !! j = output_array !! j.
Proof.
  intros Hout Hego.
  destruct (MotionPlan_inv _ _ _ _ _ _ _ _ _ _ _ _ _ _ _ _ out Hout)
    as (actor & ks & buf & ch & tlh & resolved & a & Ha & _ & _ & _ & _ & _ & _
        & Hbranch & -> & -> & ->).
  assert (actor = ego) as -> by congruence.
  split; [rewrite lookup_insert_eq; eauto|].
  split; [|split; [apply length_insert|
                   intros j Hj; apply list_lookup_insert_ne; congruence]].
  intros k Hk. split.
  - rewrite lookup_insert_ne by congruence. apply initialize_state_entry_other, Hk.
  - cbv zeta in Hbranch. destruct (physics_enabled ks).
    + destruct Hbranch as (prev & dev & lon & lat & ->).
      unfold pid_branch. destruct (snd resolved); reflexivity.
    + apply teleport_branch_inv in Hbranch as (_ & _ & -> & _).
      unfold record_teleportation.
      destruct (teleportation_instance !! ego); simpl; [reflexivity|].
      apply map_insert_lookup_ne, Hk.
Qed.

(** X16. In asynchronous mode, with a clock that does not run backwards
    and a cadence HYBRID_MODE_DT that is not negative, the first call for
    an ego without physics (no teleportation instant yet) records the
    instant and holds the ego at the location and rotation it has: the
    instant is read from the clock after the current time of the call. *)
Theorem X16_first_call_holds (out : MotionOutput) (ego : ActorId)
    (kinematic_state : KinematicState) :
  plan = Ok out →
  vehicle_id_list !! index = Some ego →
  state_map !! ego = Some kinematic_state →
  physics_enabled kinematic_state = false →
  teleportation_instance !! ego = None →
  GetSynchronousMode parameters = false →
  0 <= HYBRID_MODE_DT →
  (∀ n n', (n ≤ n')%nat → clock_values clock n <= clock_values clock n') →
  is_Some (out_teleportation_instance out !! ego)
  ∧ out_control_frame out !! index
    = Some (ApplyTransform ego
              (mkTransform (location kinematic_state) (rotation kinematic_state))).
Proof.
  intros Hout Hego Hstate Hphysics Hfirst Hasync Hcadence Hmonotone.
  destruct (MotionPlan_inv _ _ _ _ _ _ _ _ _ _ _ _ _ _ _ _ out Hout)
    as (actor & ks & buf & ch & tlh & resolved & a & Ha & Hs & _ & _ & _ & _
        & Hindex & Hbranch & _ & -> & ->).
  assert (actor = ego) as -> by congruence.
  assert (ks = kinematic_state) as -> by congruence.
  rewrite list_lookup_insert_eq by exact Hindex.
  cbv zeta in Hbranch. rewrite Hphysics in Hbranch |- *.
  pose proof (teleport_branch_inv _ _ _ _ _ _ _ _ _ _ Hbranch)
    as (_ & _ & Htable & instant & Hinstant & Htransform).
  split; [eauto|].
  destruct (initialize_state_entry_clock ego pid_state_map clock)
    as [Hvalues Hcalls].
  set (clock1 := snd (initialize_state_entry ego pid_state_map clock)) in *.
  assert (instant = clock_values clock (S (S (clock_calls clock1)))) as ->.
  { rewrite Htable in Hinstant. unfold record_teleportation in Hinstant.
    rewrite Hfirst in Hinstant. simpl in Hinstant.
    rewrite map_insert_lookup_eq, Hfirst in Hinstant. simpl in Hinstant.
    rewrite Hvalues in Hinstant. congruence. }
  assert (Qgtb (fst (now clock1) - clock_values clock (S (S (clock_calls clock1))))
            HYBRID_MODE_DT = false) as Hearly.
  { apply Qltb_ge. unfold now. simpl. rewrite Hvalues.
    pose proof (Hmonotone (clock_calls clock1) (S (S (clock_calls clock1)))
                  ltac:(lia)).
    lra. }
  rewrite Hasync, Hearly in Htransform. simpl in Htransform.
  rewrite andb_false_r in Htransform. injection Htransform as <-. reflexivity.
Qed.

(** X17. The planner fails with [std::out_of_range] when the index is not
    in the list of vehicles, or when the ego has no kinematic state, no
    buffer, no slot in the collision frame or no slot in the traffic light
    frame. *)
Theorem X17_planner_missing_entry :
  vehicle_id_list !! index = None
  ∨ (∃ ego, vehicle_id_list !! index = Some ego
            ∧ (state_map !! ego = None
               ∨ buffer_map !! ego = None
               ∨ collision_frame !! index = None
               ∨ tl_frame !! index = None)) →
  plan = Raise out_of_range.
Proof.
  intros Hmissing. unfold MotionPlan, mbind, result_bind.
  destruct Hmissing as [Hnone|(ego & Hego & Hmissing)].
  - rewrite (list_at_None _ _ Hnone). reflexivity.
  - rewrite (proj2 (list_at_Ok _ _ _) Hego). cbv beta iota.
    destruct (state_map !! ego) as [ks|] eqn:Hks;
      [rewrite (proj2 (map_at_Ok _ _ _) Hks)
      |rewrite (map_at_None _ _ Hks); reflexivity].
    cbv beta iota zeta.
    destruct (buffer_map !! ego) as [buf|] eqn:Hbuf;
      [rewrite (proj2 (map_at_Ok _ _ _) Hbuf)
      |rewrite (map_at_None _ _ Hbuf); reflexivity].
    cbv beta iota.
    destruct (collision_frame !! index) as [ch|] eqn:Hch;
      [rewrite (proj2 (list_at_Ok _ _ _) Hch)
      |rewrite (list_at_None _ _ Hch); reflexivity].
    cbv beta iota.
    destruct (tl_frame !! index) as [tlh|] eqn:Htl;
      [|rewrite (list_at_None _ _ Htl); reflexivity].
    exfalso. destruct Hmissing as [E|[E|[E|E]]]; congruence.
Qed.

End Call.

End PlannerExtras.

Section NoNegotiation.

Context `{Externals}.

(** When the ego has no traffic light state, or collision detection is
    off towards every actor, the loop negotiates nothing. *)
Lemma check_candidates_idle (state_map : KinematicStateMap)
    (attribute_map : StaticAttributeMap) (tl_state_map : TrafficLightStateMap)
    (buffer_map : BufferMap) (parameters : Parameters) (ego_actor_id : ActorId)
    (ego_kinematic_state : KinematicState) (ego_attributes : StaticAttributes)
    (look_ahead_index : nat) (reference_lead_distance : Q)
    (collision_candidate_ids : list ActorId) :
  tl_state_map !! ego_actor_id = None
  ∨ (∀ other, GetCollisionDetection parameters ego_actor_id other = false) →
  ∀ geometry_cache geodesic_boundary_map collision_locks rng v,
    check_candidates state_map attribute_map tl_state_map buffer_map parameters
      ego_actor_id ego_kinematic_state ego_attributes look_ahead_index
      reference_lead_distance collision_candidate_ids
      geometry_cache geodesic_boundary_map collision_locks rng = Ok v →
    v = mkVerdict 0%N false Inf collision_locks rng.
Proof.
  intros Hidle.
  induction collision_candidate_ids as [|other rest IH];
    intros cache boundaries locks rng v Hv; simpl in Hv.
  - congruence.
  - returned Hv as Htype value other_type.
    returned Hv as Hstate value other_state.
    returned Hv as Hattributes value other_attributes.
    assert (GetCollisionDetection parameters ego_actor_id other
            && bool_decide (is_Some (tl_state_map !! ego_actor_id))
            && bool_decide (is_Some (buffer_map !! ego_actor_id))
            && bool_decide (is_Some (buffer_map !! other)) = false) as Hcond.
    { destruct Hidle as [Hnone|Hoff].
      - rewrite Hnone. rewrite (bool_decide_eq_false_2 (is_Some None));
          [|intros [? ?]; discriminate].
        rewrite andb_false_r. reflexivity.
      - rewrite Hoff. reflexivity. }
    rewrite Hcond in Hv. apply IH in Hv. exact Hv.
Qed.

(** X18. An ego with state and attributes and without traffic light
    state, or with collision detection off towards every actor, gets
    a record without hazard when the driver returns; the locks and the
    random source are left as they were. *)
Theorem X18_nothing_negotiated
    (index : nat) (vehicle_id_list : list ActorId)
    (state_map : KinematicStateMap) (attribute_map : StaticAttributeMap)
    (tl_state_map : TrafficLightStateMap) (buffer_map : BufferMap)
    (track_traffic : TrackTraffic) (parameters : Parameters)
    (collision_locks : CollisionLockMap)
    (output_array : list CollisionHazardData) (rng : Rand)
    (out : CollisionOutput) (ego : ActorId) :
  CollisionAvoidance index vehicle_id_list state_map attribute_map tl_state_map
    buffer_map track_traffic parameters collision_locks output_array rng = Ok out →
  vehicle_id_list !! index = Some ego →
  tl_state_map !! ego = None
  ∨ (∀ other, GetCollisionDetection parameters ego other = false) →
  out = mkCollisionOutput collision_locks
          (<[index := mkCollisionHazardData 0%N Inf false]> output_array) rng.
Proof.
  intros Hout Hego Hidle.
  destruct (CollisionAvoidance_inv _ _ _ _ _ _ _ _ _ _ _ _ Hout)
    as (ego' & v & Hego' & _ & Hframe & Hlocks & Hv).
  assert (ego' = ego) as -> by congruence.
  assert (v = mkVerdict 0%N false Inf collision_locks rng) as ->.
  { destruct Hv as [[-> _]|(es & ea & eb & target & candidates & _ & _ & _ & _ & Hloop)];
      [reflexivity|].
    eapply check_candidates_idle; eassumption. }
  simpl in *.
  assert (out_rand out = rng) as Hrand.
  { unfold CollisionAvoidance in Hout.
    returned Hout as Hid value id. returned Hout as Hverdict value v'.
    returned Hout as Hwrite value frame. injection Hout as <-. simpl in *.
    apply list_at_Ok in Hid. assert (id = ego) as -> by congruence.
    destruct (state_map !! ego) as [es|]; [destruct (attribute_map !! ego) as [ea|]|];
      [|injection Hverdict as <-; reflexivity..].
    returned Hverdict as Hbuffer value eb. returned Hverdict as Htarget value target.
    returned Hverdict as Hfilter value filtered.
    apply (check_candidates_idle _ _ _ _ _ _ _ _ _ _ _ Hidle) in Hverdict as ->.
    reflexivity. }
  destruct out as [locks frame rand]. simpl in *. congruence.
Qed.

End NoNegotiation.

(** * The further properties on the scenario *)

Section ScenarioInstance.

Import Scenario.

Lemma floor_of_equal_fractions (a b : Q) (k : Z) :
  a == b → (Qnum a * k / Zpos (Qden a) = Qnum b * k / Zpos (Qden b))%Z.
Proof.
  unfold Qeq. intros E.
  rewrite <- (Z.div_mul_cancel_r (Qnum a * k) (Zpos (Qden a)) (Zpos (Qden b)))
    by discriminate.
  rewrite <- (Z.div_mul_cancel_r (Qnum b * k) (Zpos (Qden b)) (Zpos (Qden a)))
    by discriminate.
  f_equal; [|apply Z.mul_comm].
  replace (Qnum a * k * Zpos (Qden b))%Z with (Qnum a * Zpos (Qden b) * k)%Z by ring.
  rewrite E. ring.
Qed.

(** The square root of the scenario gives the same result on equal
    rationals. *)
Lemma sqrt_fixed_comp (a b : Q) : a == b → sqrt_fixed a = sqrt_fixed b.
Proof.
  intros E. unfold sqrt_fixed. rewrite (floor_of_equal_fractions a b _ E).
  reflexivity.
Qed.

Lemma MAX_comp (a a' b b' : Q) : a == a' → b == b' → MAX a b == MAX a' b'.
Proof. intros Ha Hb. rewrite !MAX_Qmax, Ha, Hb. reflexivity. Qed.

Lemma MAX_comm (a b : Q) : MAX a b == MAX b a.
Proof. rewrite !MAX_Qmax. apply Q.max_comm. Qed.

Lemma interval_gap_swap (lo1 hi1 lo2 hi2 : Q) :
  interval_gap lo1 hi1 lo2 hi2 == interval_gap lo2 hi2 lo1 hi1.
Proof.
  unfold interval_gap. apply MAX_comp; [reflexivity|apply MAX_comm].
Qed.

(** The distance of the scenario is symmetric. *)
Lemma rectangle_distance_sym (p q : Polygon) :
  rectangle_distance p q = rectangle_distance q p.
Proof.
  unfold rectangle_distance. cbv zeta. f_equal. apply sqrt_fixed_comp.
  rewrite (interval_gap_swap (coordinate_min (map px p))),
    (interval_gap_swap (coordinate_min (map py p))).
  reflexivity.
Qed.

Lemma X1_unknown_ego_is_skipped_witness :
  CollisionAvoidance 0 [ego; lead] (delete ego state_map) attribute_map tl_state_map
    buffer_map track_traffic (parameters 0) ∅ [no_hazard; no_hazard] zeros
  = Ok (mkCollisionOutput ∅
          (<[0%nat := mkCollisionHazardData 0%N Inf false]> [no_hazard; no_hazard])
          zeros).
Proof.
  apply (X1_unknown_ego_is_skipped 0 [ego; lead] (delete ego state_map) attribute_map
           tl_state_map buffer_map track_traffic (parameters 0) ∅
           [no_hazard; no_hazard] zeros ego no_hazard).
  - reflexivity.
  - reflexivity.
  - left. apply lookup_delete_eq.
Defined.

Local Abbreviation follower_tick :=
  (CollisionAvoidance 0 [ego; lead] state_map attribute_map tl_state_map buffer_map
     track_traffic (parameters 0) ∅ [no_hazard; no_hazard] zeros).

Lemma X2_other_slots_kept_witness :
  ∃ out, follower_tick = Ok out ∧ out_frame out !! 1%nat = Some no_hazard.
Proof.
  destruct follower_tick as [out|e] eqn:Hrun; [|vm_compute in Hrun; discriminate].
  exists out. split; [reflexivity|].
  destruct (X2_other_slots_kept _ _ _ _ _ _ _ _ _ _ _ out Hrun) as [_ Hslots].
  rewrite (Hslots 1%nat) by discriminate. reflexivity.
Defined.

Lemma X3_other_locks_kept_witness :
  ∃ out, follower_tick = Ok out ∧ out_collision_locks out !! lead = None.
Proof.
  destruct follower_tick as [out|e] eqn:Hrun; [|vm_compute in Hrun; discriminate].
  exists out. split; [reflexivity|].
  rewrite (X3_other_locks_kept _ _ _ _ _ _ _ _ _ _ _ out ego lead Hrun eq_refl)
    by discriminate.
  reflexivity.
Defined.

Lemma X4_hazard_actor_is_candidate_witness :
  ∃ out record,
    follower_tick = Ok out
    ∧ out_frame out !! 0%nat = Some record
    ∧ hazard_actor_id record ∈ GetOverlappingVehicles track_traffic ego
    ∧ hazard_actor_id record ≠ ego.
Proof.
  destruct follower_tick as [out|e] eqn:Hrun; [|vm_compute in Hrun; discriminate].
  destruct (out_frame out !! 0%nat) as [record|] eqn:Hrecord;
    [|vm_compute in Hrun; injection Hrun as <-; discriminate].
  assert (hazard record = true) as Hhazard.
  { vm_compute in Hrun. injection Hrun as <-. vm_compute in Hrecord.
    injection Hrecord as <-. reflexivity. }
  destruct (X4_hazard_actor_is_candidate _ _ _ _ _ _ _ _ _ _ _ out ego record
              Hrun eq_refl Hrecord Hhazard) as (Hin & Hne & _).
  exists out, record. auto.
Defined.

Lemma X5_draws_bounded_witness :
  ∃ out, follower_tick = Ok out ∧ (rand_calls (out_rand out) ≤ 1)%nat.
Proof.
  destruct follower_tick as [out|e] eqn:Hrun; [|vm_compute in Hrun; discriminate].
  exists out. split; [reflexivity|].
  destruct (X5_draws_bounded _ _ _ _ _ _ _ _ _ _ _ out ego Hrun eq_refl)
    as [_ [_ Hcalls]].
  exact Hcalls.
Defined.

Local Abbreviation follower_negotiation :=
  (NegotiateCollision ego lead ∅ ∅ ∅ ego_state lead_state car car green
     (road 0 31) (road 20 31) 10 1 1).

Lemma X6_lock_after_hazard_witness :
  ∃ r, follower_negotiation = Ok r
       ∧ neg_collision_locks r !! ego
         = Some (mkCollisionLock lead (77 # 5) (77 # 5)).
Proof.
  destruct follower_negotiation as [r|e] eqn:Hrun; [|vm_compute in Hrun; discriminate].
  exists r. split; [reflexivity|].
  assert (neg_hazard r = true) as Hhazard
    by (vm_compute in Hrun; injection Hrun as <-; reflexivity).
  destruct (X6_lock_after_hazard _ _ _ _ _ _ _ _ _ _ _ _ _ _ _ r Hrun Hhazard)
    as (g & cache & boundaries & Hg & Hlock).
  vm_compute in Hg. injection Hg as <- _ _. exact Hlock.
Defined.

Lemma X7_new_lock_pins_extension_witness :
  GetBoundingBoxExtention ego ego_state
    (update_collision_lock ego lead follower_geometry ∅)
  = inter_bbox_distance follower_geometry + LOCKING_DISTANCE_PADDING.
Proof.
  apply (X7_new_lock_pins_extension ego lead follower_geometry ∅ ego_state).
  - vm_compute. reflexivity.
  - intros lock Hlock. rewrite lookup_empty in Hlock. discriminate.
Defined.

Lemma X9_geodesic_boundary_memoized_witness :
  ∃ boundary boundaries,
    GetGeodesicBoundary ego ∅ ego_state car (road 0 31) 1 ∅ = Ok (boundary, boundaries)
    ∧ GetGeodesicBoundary ego boundaries lead_state car [] 0 ∅
      = Ok (boundary, boundaries).
Proof.
  destruct (GetGeodesicBoundary ego ∅ ego_state car (road 0 31) 1 ∅)
    as [[boundary boundaries]|e] eqn:Hrun; [|vm_compute in Hrun; discriminate].
  exists boundary, boundaries. split; [reflexivity|].
  apply (X9_geodesic_boundary_memoized _ _ _ _ _ _ _ _ _ Hrun).
Defined.

Lemma X10_polygon_is_closed_witness :
  ∃ ring, GetPolygon (GetBoundary ego_state car) = Ok ring
          ∧ length ring = 5%nat ∧ head ring = last ring.
Proof.
  destruct (GetPolygon (GetBoundary ego_state car)) as [ring|e] eqn:Hrun;
    [|vm_compute in Hrun; discriminate].
  exists ring. split; [reflexivity|].
  destruct (proj2 (X10_polygon_is_closed _) ring Hrun)
    as (first & _ & Hlength & Hhead & Hlast & _).
  split; [exact Hlength|congruence].
Defined.

Lemma X11_angular_priority_means_behind_witness :
  ego_angular_priority lead_state ego_state = true.
Proof.
  apply (X11_angular_priority_means_behind lead_state ego_state).
  - intros a b E. change (sqrt_fixed a == sqrt_fixed b).
    rewrite (sqrt_fixed_comp a b E). reflexivity.
  - vm_compute. reflexivity.
Defined.

Lemma X12_fresh_queries_are_swapped_witness :
  ∃ boundaries,
    GetGeometryBetweenActors ∅ ∅ lead ego lead_state ego_state car car
      (road 20 31) (road 0 31) ∅ 1 1
    = Ok (swap_geodesic follower_geometry,
          <[actor_id_key lead ego := swap_geodesic follower_geometry]> ∅,
          boundaries).
Proof.
  destruct (GetGeometryBetweenActors ∅ ∅ ego lead ego_state lead_state car car
              (road 0 31) (road 20 31) ∅ 1 1)
    as [[[m cache] boundaries]|e] eqn:Hrun; [|vm_compute in Hrun; discriminate].
  destruct (X12_fresh_queries_are_swapped (H := externals)
              ∅ ∅ ego lead ego_state lead_state car car
              (road 0 31) (road 20 31) ∅ 1 1 m cache boundaries
              rectangle_distance_sym ltac:(discriminate) eq_refl eq_refl Hrun)
    as [_ Hswapped].
  assert (m = follower_geometry) as ->
    by (vm_compute in Hrun; injection Hrun as <- _ _; reflexivity).
  eauto.
Defined.

End ScenarioInstance.

Section PlannerInstance.

Import Scenario.

Lemma X13_speed_clamp_witness :
  ∃ resolved,
    target_resolver state_map attribute_map (parameters 0) ego (velocity ego_state)
      (GetForwardVector (rotation ego_state)) no_hazard false = Ok resolved
    ∧ fst resolved <= 36 / (36 # 10).
Proof.
  destruct (target_resolver state_map attribute_map (parameters 0) ego
              (velocity ego_state) (GetForwardVector (rotation ego_state))
              no_hazard false) as [resolved|e] eqn:Hrun;
    [|vm_compute in Hrun; discriminate].
  exists resolved. split; [reflexivity|].
  destruct (X13_speed_clamp _ _ _ _ _ _ _ _ resolved Hrun) as (attributes & Ha & Hle).
  vm_compute in Ha. injection Ha as <-. exact Hle.
Defined.

(** A hazard record for the lead with a margin of 0.1 m. *)
Local Abbreviation close_record := (mkCollisionHazardData lead (Fin (1 # 10)) true).

Lemma X14_emergency_stop_causes_witness :
  ∃ m, available_distance_margin close_record = Fin m ∧ m <= 1 # 4.
Proof.
  destruct (target_resolver state_map attribute_map (parameters 0) ego
              (velocity ego_state) (GetForwardVector (rotation ego_state))
              close_record false) as [resolved|e] eqn:Hrun;
    [|vm_compute in Hrun; discriminate].
  assert (snd resolved = true) as Hstop
    by (vm_compute in Hrun; injection Hrun as <-; reflexivity).
  destruct (X14_emergency_stop_causes _ _ _ _ _ _ _ _ resolved Hrun Hstop)
    as [Htl|[_ Hmargin]]; [discriminate|exact Hmargin].
Defined.

Lemma X15_planner_writes_for_ego_only_witness :
  ∃ after,
    MotionPlan_call (plan_call ego_state no_hazard false) (plan_start {[ lead := 0 ]})
    = Ok after
    ∧ is_Some (out_pid_state_map after !! ego)
    ∧ out_teleportation_instance after !! lead = Some 0.
Proof.
  destruct (MotionPlan_call (plan_call ego_state no_hazard false)
              (plan_start {[ lead := 0 ]}))
    as [after|e] eqn:Hrun; [|vm_compute in Hrun; discriminate].
  exists after. split; [reflexivity|]. unfold MotionPlan_call in Hrun.
  destruct (X15_planner_writes_for_ego_only _ _ _ _ _ _ _ _ _ _ _ _ _ _ _ _ after ego
              Hrun eq_refl) as (Hstate & Hothers & _).
  split; [exact Hstate|].
  destruct (Hothers lead ltac:(discriminate)) as [_ ->]. reflexivity.
Defined.

Lemma X16_first_call_holds_witness :
  ∃ after,
    MotionPlan_call (plan_call ghost_state no_hazard false) (plan_start ∅) = Ok after
    ∧ is_Some (out_teleportation_instance after !! ego)
    ∧ out_control_frame after !! 0%nat
      = Some (ApplyTransform ego
                (mkTransform (location ghost_state) (rotation ghost_state))).
Proof.
  destruct (MotionPlan_call (plan_call ghost_state no_hazard false) (plan_start ∅))
    as [after|e] eqn:Hrun; [|vm_compute in Hrun; discriminate].
  exists after. split; [reflexivity|]. unfold MotionPlan_call in Hrun.
  apply (X16_first_call_holds _ _ _ _ _ _ _ _ _ _ _ _ _ _ _ _ after ego ghost_state
           Hrun); try reflexivity.
  - vm_compute. discriminate.
  - intros n n' Hn. unfold Qle. simpl. lia.
Defined.

Lemma X17_planner_missing_entry_witness :
  MotionPlan 5 [ego] state_map attribute_map (parameters 0) buffer_map
    [1] [1] [1] [1] [no_hazard] [false] ∅ ∅ [idle] seconds
  = Raise out_of_range.
Proof.
  apply X17_planner_missing_entry. left. reflexivity.
Defined.

Lemma X18_nothing_negotiated_witness :
  CollisionAvoidance 0 [ego; lead] state_map attribute_map ∅ buffer_map
    track_traffic (parameters 0) ∅ [no_hazard; no_hazard] zeros
  = Ok (mkCollisionOutput ∅
          (<[0%nat := mkCollisionHazardData 0%N Inf false]> [no_hazard; no_hazard])
          zeros).
Proof.
  destruct (CollisionAvoidance 0 [ego; lead] state_map attribute_map ∅ buffer_map
              track_traffic (parameters 0) ∅ [no_hazard; no_hazard] zeros)
    as [out|e] eqn:Hrun; [|vm_compute in Hrun; discriminate].
  f_equal.
  apply (X18_nothing_negotiated _ _ _ _ _ _ _ _ _ _ _ out ego Hrun eq_refl).
  left. reflexivity.
Defined.

End PlannerInstance.

(** * Further properties of the boundary walk and of the candidate filter *)

Section WalkExtras.

Context `{Externals}.

(** Every rib of the walk is the rib of a buffer entry between the index
    of the current point and the last but one. *)
Lemma boundary_walk_ribs_inside (waypoint_buffer : Buffer)
    (boundary_start : SimpleWaypoint) (bbox_extension_square width : Q)
    (first_index : nat) (n : nat) :
  ∀ j c boundary_end current_point left_boundary right_boundary ribs,
    (n + j)%nat = length waypoint_buffer →
    waypoint_buffer !! c = Some current_point →
    (first_index ≤ c ≤ j)%nat →
    (S c < length waypoint_buffer)%nat →
    boundary_walk n j waypoint_buffer boundary_start bbox_extension_square width
      boundary_end current_point left_boundary right_boundary = Ok ribs →
    ∃ entries,
      fst ribs = left_boundary ++ map (λ w, fst (rib w width)) entries
      ∧ snd ribs = right_boundary ++ map (λ w, snd (rib w width)) entries
      ∧ (length entries ≤ n)%nat
      ∧ ∀ w, w ∈ entries →
             ∃ i, (first_index ≤ i ∧ S i < length waypoint_buffer)%nat
                  ∧ waypoint_buffer !! i = Some w.
Proof.
  induction n as [|n IH];
    intros j c boundary_end cp left right ribs Hsize Hcp Hc Hlast Hwalk;
    cbn [boundary_walk] in Hwalk.
  - injection Hwalk as <-. exists []. simpl. rewrite !app_nil_r.
    repeat split; [lia|]. intros w Hw. apply elem_of_nil in Hw. contradiction.
  - unfold mbind, result_bind in Hwalk.
    destruct (list_at waypoint_buffer j) as [cp'|e] eqn:Hcp';
      [|destruct (_ || _); discriminate]. 
    apply list_at_Ok in Hcp'.
    set (at_last := Nat.eqb j (length waypoint_buffer - 1)) in Hwalk.
    destruct (Qgtb _ _ || at_last) eqn:Hreached in Hwalk.
    + rewrite orb_true_r in Hwalk. injection Hwalk as <-.
      exists [cp]. simpl. repeat split; [lia|].
      intros w Hw. apply list_elem_of_singleton in Hw as ->.
      exists c. split; [lia|exact Hcp].
    + rewrite orb_false_r in Hwalk.
      apply orb_false_iff in Hreached as [_ Hnot_last].
      apply Nat.eqb_neq in Hnot_last.
      assert (S j < length waypoint_buffer)%nat as Hj by lia.
      destruct (match boundary_end with
                | Some e => Qltb (Dot (wp_forward e) (wp_forward cp)) COS_10_DEGREES
                | None => true
                end) in Hwalk.
      * destruct (IH (S j) j (Some cp) cp' _ _ ribs ltac:(lia) Hcp' ltac:(lia) Hj Hwalk)
          as (entries & Hl & Hr & Hlen & Hin).
        exists (cp :: entries). simpl.
        rewrite Hl, Hr, <- !app_assoc. simpl. repeat split; [lia|].
        intros w Hw. apply elem_of_cons in Hw as [->|Hw]; [|auto].
        exists c. split; [lia|exact Hcp].
      * destruct (IH (S j) j boundary_end cp' _ _ ribs ltac:(lia) Hcp' ltac:(lia) Hj
                    Hwalk) as (entries & Hl & Hr & Hlen & Hin).
        exists entries. repeat split; [assumption..|lia|assumption].
Qed.

(** X19. When the start index is not the last index of the buffer, the
    ribs of a vehicle are ribs of buffer entries from the start index to
    the last but one: the walk emits the rib of the entry before the one
    it has reached, so the last entry of the buffer never carries a rib.
    Left and right ribs come from the same entries, at most one per
    entry. *)
Theorem X19_last_entry_has_no_rib (actor_id : ActorId)
    (kinematic_state : KinematicState) (attributes : StaticAttributes)
    (waypoint_buffer : Buffer) (specific_lead_distance : Q)
    (collision_lock_map : CollisionLockMap)
    (boundary_start : SimpleWaypoint) (boundary_start_index : nat)
    (ribs : LocationList * LocationList) :
  GetTargetWaypoint waypoint_buffer (half_length attributes)
    = Ok (boundary_start, boundary_start_index) →
  (S boundary_start_index < length waypoint_buffer)%nat →
  geodesic_ribs actor_id kinematic_state attributes waypoint_buffer
    specific_lead_distance collision_lock_map = Ok ribs →
  ∃ entries,
    fst ribs = map (λ w, fst (rib w (half_width attributes))) entries
    ∧ snd ribs = map (λ w, snd (rib w (half_width attributes))) entries
    ∧ (length entries ≤ length waypoint_buffer - boundary_start_index)%nat
    ∧ ∀ w, w ∈ entries →
           ∃ i, (boundary_start_index ≤ i ∧ S i < length waypoint_buffer)%nat
                ∧ waypoint_buffer !! i = Some w.
Proof.
  intros Htarget Hindex Hribs. unfold geodesic_ribs in Hribs.
  rewrite Htarget in Hribs. unfold mbind, result_bind in Hribs. simpl in Hribs.
  destruct (list_at waypoint_buffer boundary_start_index) as [cp|e] eqn:Hcp;
    [|discriminate].
  apply list_at_Ok in Hcp.
  edestruct (boundary_walk_ribs_inside waypoint_buffer boundary_start)
    with (first_index := boundary_start_index) (c := boundary_start_index)
    as (entries & Hl & Hr & Hlen & Hin);
    [|exact Hcp| |exact Hindex|exact Hribs|]; [lia|lia|].
  exists entries. auto.
Qed.

(** An overlapping actor without kinematic state makes the first loop
    fail. *)
Lemma filter_candidates_missing_state (state_map : KinematicStateMap)
    (ego_actor_id : ActorId) (ego_kinematic_state : KinematicState)
    (overlapping_actors : list ActorId) (x : ActorId) :
  x ∈ overlapping_actors →
  state_map !! x = None →
  ∀ collision_candidate_ids,
    filter_candidates state_map ego_actor_id ego_kinematic_state
      overlapping_actors collision_candidate_ids = Raise out_of_range.
Proof.
  intros Hin Hnone.
  induction overlapping_actors as [|id rest IH]; intros acc.
  - apply elem_of_nil in Hin. contradiction.
  - simpl. unfold GetLocation, mbind, result_bind.
    destruct (state_map !! id) as [s|] eqn:Hs.
    + rewrite (proj2 (map_at_Ok _ _ _) Hs).
      apply elem_of_cons in Hin as [->|Hin]; [congruence|].
      destruct (_ && _ && _); apply IH, Hin.
    + rewrite (map_at_None _ _ Hs). reflexivity.
Qed.

(** X20. When an overlapping actor of the ego has no kinematic state, the
    driver of an ego that has state, attributes and a buffer fails with
    [std::out_of_range]: the location of every overlapping actor is read
    before the tests of the filter. *)
Theorem X20_overlapping_actor_without_state
    (index : nat) (vehicle_id_list : list ActorId)
    (state_map : KinematicStateMap) (attribute_map : StaticAttributeMap)
    (tl_state_map : TrafficLightStateMap) (buffer_map : BufferMap)
    (track_traffic : TrackTraffic) (parameters : Parameters)
    (collision_locks : CollisionLockMap)
    (output_array : list CollisionHazardData) (rng : Rand)
    (ego x : ActorId) (ego_buffer : Buffer) (target : TargetWPInfo) :
  vehicle_id_list !! index = Some ego →
  is_Some (state_map !! ego) →
  is_Some (attribute_map !! ego) →
  buffer_map !! ego = Some ego_buffer →
  GetTargetWaypoint ego_buffer JUNCTION_LOOK_AHEAD = Ok target →
  x ∈ GetOverlappingVehicles track_traffic ego →
  state_map !! x = None →
  CollisionAvoidance index vehicle_id_list state_map attribute_map tl_state_map
    buffer_map track_traffic parameters collision_locks output_array rng
  = Raise out_of_range.
Proof.
  intros Hego [s Hs] [a Ha] Hbuffer Htarget Hin Hnone. unfold CollisionAvoidance.
  rewrite (proj2 (list_at_Ok _ _ _) Hego). unfold mbind, result_bind. cbv beta iota.
  rewrite Hs, Ha, (proj2 (map_at_Ok _ _ _) Hbuffer), Htarget.
  rewrite (filter_candidates_missing_state _ _ _ _ x Hin Hnone). reflexivity.
Qed.

End WalkExtras.

Section WalkInstance.

Import Scenario.

Lemma X19_last_entry_has_no_rib_witness :
  ∃ ribs entries,
    geodesic_ribs ego ego_state car (road 0 31) 1 ∅ = Ok ribs
    ∧ fst ribs = map (λ w, fst (rib w 1)) entries
    ∧ (length entries ≤ 28)%nat.
Proof.
  destruct (geodesic_ribs ego ego_state car (road 0 31) 1 ∅) as [ribs|e] eqn:Hrun;
    [|vm_compute in Hrun; discriminate].
  destruct (X19_last_entry_has_no_rib ego ego_state car (road 0 31) 1 ∅
              (road_waypoint 3) 3 ribs)
    as (entries & Hleft & _ & Hlength & _).
  - vm_compute. reflexivity.
  - vm_compute. lia.
  - exact Hrun.
  - exists ribs, entries. split; [reflexivity|]. split; [exact Hleft|exact Hlength].
Defined.

(** The overlap index reports an actor that the snapshot does not know. *)
Lemma X20_overlapping_actor_without_state_witness :
  CollisionAvoidance 0 [ego; lead] (delete lead state_map) attribute_map tl_state_map
    buffer_map track_traffic (parameters 0) ∅ [no_hazard; no_hazard] zeros
  = Raise out_of_range.
Proof.
  apply (X20_overlapping_actor_without_state 0 [ego; lead] (delete lead state_map)
           attribute_map tl_state_map buffer_map track_traffic (parameters 0) ∅
           [no_hazard; no_hazard] zeros ego lead (road 0 31) (road_waypoint 10, 10%nat)).
  - reflexivity.
  - vm_compute. eauto.
  - vm_compute. eauto.
  - reflexivity.
  - vm_compute. reflexivity.
  - vm_compute. left.
  - apply lookup_delete_eq.
Defined.

End WalkInstance.
